(** * coriolis-logger: the InfluxDB datastore

    A shallow embedding of [datastore/influxdb/influxdb.go]: the buffered
    writer ([flush], [doWork], [Write], [Rotate]) and the query reader
    ([prepareQuery], [ReadNext]).

    The datastore is one shared object mutated by its methods and by the
    worker goroutine; it is modelled as a record threaded through a small
    monad whose outcomes are: normal return, a goroutine suspended on a
    mutex or a channel, and a Go runtime panic.

    Goroutines are interleaved at the places where the code waits.  The
    worker is a loop over the cases its [select] picks, given as a list of
    events; a method runs from its call to its return, except [Write],
    which takes as a parameter the turns the worker makes while the call
    waits for the acknowledgment of its flush request.  Those are whole
    turns; the runs in which the 60 seconds of a waiting [Write] pass
    while the worker is inside [con.Write] are put together from the two
    halves of [flush], of the flush-request case and of [Write].  The
    backing store and the wall clock are inputs: scripted replies of the
    server, and the reading of [time.Now()]. *)

From Stdlib Require Import ZArith List String Ascii Bool Lia DecimalString.
From Stdlib Require Import Strings.Byte.
Import ListNotations.

Local Open Scope string_scope.
Local Open Scope list_scope.
Local Open Scope Z_scope.

Set Implicit Arguments.

(** ** Errors ([error], [io.EOF], [fmt.Errorf], [errors.Wrap]) *)

Inductive error : Type :=
| EOF                                   (* the io.EOF sentinel *)
| Errorf (msg : string)                 (* fmt.Errorf / errors.New *)
| Wrap (cause : error) (msg : string).  (* errors.Wrap(cause, msg) *)

Fixpoint Error (e : error) : string :=
  match e with
  | EOF => "EOF"
  | Errorf msg => msg
  | Wrap cause msg => (msg ++ ": " ++ Error cause)%string
  end.

(** [err == io.EOF] *)
Definition is_EOF (e : error) : bool :=
  match e with EOF => true | _ => false end.

(** ** time.Time

    An instant: seconds since January 1, year 1 00:00:00 UTC and the
    nanosecond within that second.  The zero value [time.Time{}] is that
    origin. *)

Record Time : Type := mkTime { sec : Z; nsec : Z }.

Definition undefinedDate : Time := mkTime 0 0.

Definition Time_Equal (t u : Time) : bool :=
  (sec t =? sec u) && (nsec t =? nsec u).

(** [t] is not after [u]. *)
Definition Time_le (t u : Time) : bool :=
  (sec t <? sec u) || ((sec t =? sec u) && (nsec t <=? nsec u)).

Definition wrap64 (z : Z) : Z := (z + 2 ^ 63) mod 2 ^ 64 - 2 ^ 63.

Definition unixToInternal : Z := 62135596800.

(** [t.UnixNano()]: an int64, wrapping outside the representable years. *)
Definition UnixNano (t : Time) : Z :=
  wrap64 ((sec t - unixToInternal) * 1000000000 + nsec t).

(** [fmt.Sprintf("%d", z)] *)
Definition fmt_d (z : Z) : string := NilZero.string_of_int (Z.to_int z).

(** ** Backend data: points, batches, queries, responses *)

Record Point : Type := mkPoint {
  Name : string;
  Tags : list (string * string);
  Fields : list (string * string);
  PointTime : Time
}.

Record BatchPointsConfig : Type := mkBatchPointsConfig {
  bpcDatabase : string;
  bpcPrecision : string
}.

Record BatchPoints : Type := mkBatchPoints {
  bpDatabase : string;
  bpPrecision : string;
  bpPoints : list Point
}.

Definition AddPoint (bp : BatchPoints) (p : Point) : BatchPoints :=
  mkBatchPoints (bpDatabase bp) (bpPrecision bp) (bpPoints bp ++ [p]).

Record Query : Type := mkQuery {
  Command : string;
  qDatabase : string;
  qPrecision : string;
  ChunkSize : Z
}.

Definition NewQuery (command database precision : string) : Query :=
  mkQuery command database precision 0.

(** A column value of a result row ([interface{}]). *)
Inductive Value : Type :=
| VString (s : string)
| VNumber (z : Z)
| VNil.

Record Row : Type := mkRow { Values : list (list Value) }.
Record Result : Type := mkResult { Series : list Row }.
Record Response : Type := mkResponse { Results : list Result }.

(** [*client.ChunkedResponse]: the chunks still to be decoded from the
    stream, each either a decoding failure (the text the library reports
    for it) or a response.  Past the last one the decoder reports
    [io.EOF]. *)
Definition ChunkedResponse : Type := list (string + Response).

(** [r.NextResponse()].  On a decoding failure the library reads the
    connection to its end, so that what came after the failure is gone,
    and the decoder keeps its error: the stream stays at the failure. *)
Definition NextResponse (r : ChunkedResponse) : ChunkedResponse * (Response + error) :=
  match r with
  | [] => ([], inr EOF)
  | inl msg :: _ => ([inl msg], inr (Errorf msg))
  | inr resp :: rest => (rest, inl resp)
  end.

(** [client.Client]: the connection together with the server behind it.
    [write_replies] scripts what the coming [Write] calls answer ([None]:
    accepted; past the end of the script every batch is accepted);
    [submitted] and [accepted] record the batches handed to [Write] and
    those the server took; [query_reply] is the server's answer to a
    query and [queries] the queries executed so far. *)
Record Client : Type := mkClient {
  write_replies : list (option string);
  submitted : list BatchPoints;
  accepted : list BatchPoints;
  query_reply : Query -> string + ChunkedResponse;
  queries : list Query
}.

Definition Client_Write (c : Client) (bp : BatchPoints) : Client * option error :=
  match write_replies c with
  | Some msg :: rest =>
      (mkClient rest (submitted c ++ [bp]) (accepted c) (query_reply c) (queries c),
       Some (Errorf msg))
  | None :: rest =>
      (mkClient rest (submitted c ++ [bp]) (accepted c ++ [bp]) (query_reply c) (queries c),
       None)
  | [] =>
      (mkClient [] (submitted c ++ [bp]) (accepted c ++ [bp]) (query_reply c) (queries c),
       None)
  end.

Definition Client_QueryAsChunk (c : Client) (q : Query) : Client * (ChunkedResponse + error) :=
  let c' := mkClient (write_replies c) (submitted c) (accepted c) (query_reply c)
                     (queries c ++ [q]) in
  match query_reply c q with
  | inl msg => (c', inr (Errorf msg))
  | inr resp => (c', inl resp)
  end.

(** ** The datastore object *)

Record Config : Type := mkConfig {
  Database : string;
  WriteInterval : Z
}.

Record InfluxDBDataStore : Type := mkStore {
  cfg : Config;
  con : Client;
  mut : bool;             (* sync.Mutex: true while held *)
  points : list Point;
  ctx : bool;             (* true once the context is cancelled *)
  closed : bool;          (* true once the channel is closed *)
  quit : bool;            (* true once the channel is closed *)
  flushNow : list Z;      (* chan int, capacity 10 *)
  flushed : list Z;       (* chan int, capacity 10 *)
  logged : list string    (* lines written by log.Errorf, oldest first *)
}.

Definition chanCap : Z := 10.

Definition len {A : Type} (l : list A) : Z := Z.of_nat (List.length l).

Definition set_con (c : Client) (s : InfluxDBDataStore) : InfluxDBDataStore :=
  mkStore (cfg s) c (mut s) (points s) (ctx s) (closed s) (quit s)
          (flushNow s) (flushed s) (logged s).
Definition set_mut (b : bool) (s : InfluxDBDataStore) : InfluxDBDataStore :=
  mkStore (cfg s) (con s) b (points s) (ctx s) (closed s) (quit s)
          (flushNow s) (flushed s) (logged s).
Definition set_points (ps : list Point) (s : InfluxDBDataStore) : InfluxDBDataStore :=
  mkStore (cfg s) (con s) (mut s) ps (ctx s) (closed s) (quit s)
          (flushNow s) (flushed s) (logged s).
Definition set_ctx (b : bool) (s : InfluxDBDataStore) : InfluxDBDataStore :=
  mkStore (cfg s) (con s) (mut s) (points s) b (closed s) (quit s)
          (flushNow s) (flushed s) (logged s).
Definition set_closed (b : bool) (s : InfluxDBDataStore) : InfluxDBDataStore :=
  mkStore (cfg s) (con s) (mut s) (points s) (ctx s) b (quit s)
          (flushNow s) (flushed s) (logged s).
Definition set_quit (b : bool) (s : InfluxDBDataStore) : InfluxDBDataStore :=
  mkStore (cfg s) (con s) (mut s) (points s) (ctx s) (closed s) b
          (flushNow s) (flushed s) (logged s).
Definition set_flushNow (q : list Z) (s : InfluxDBDataStore) : InfluxDBDataStore :=
  mkStore (cfg s) (con s) (mut s) (points s) (ctx s) (closed s) (quit s)
          q (flushed s) (logged s).
Definition set_flushed (q : list Z) (s : InfluxDBDataStore) : InfluxDBDataStore :=
  mkStore (cfg s) (con s) (mut s) (points s) (ctx s) (closed s) (quit s)
          (flushNow s) q (logged s).
Definition set_logged (l : list string) (s : InfluxDBDataStore) : InfluxDBDataStore :=
  mkStore (cfg s) (con s) (mut s) (points s) (ctx s) (closed s) (quit s)
          (flushNow s) (flushed s) l.

(** The state a successful [NewInfluxDBDatastore] builds around a
    connection: empty buffer, open channels. *)
Definition NewInfluxDBDatastore (c : Config) (cl : Client) : InfluxDBDataStore :=
  mkStore c cl false [] false false false [] [] [].

(** ** Executions of one goroutine over the shared datastore *)

Inductive Outcome (A : Type) : Type :=
| Ret (a : A) (s : InfluxDBDataStore)   (* ran to its return *)
| Block (s : InfluxDBDataStore)         (* suspended in state [s] *)
| Panic (msg : string) (s : InfluxDBDataStore).
                                        (* runtime panic in state [s]: the process dies *)

Arguments Block {A} s.
Arguments Panic {A} msg s.

Definition M (A : Type) : Type := InfluxDBDataStore -> Outcome A.

Definition ret {A : Type} (a : A) : M A := fun s => Ret a s.

Definition bind {A B : Type} (m : M A) (k : A -> M B) : M B :=
  fun s =>
    match m s with
    | Ret a s' => k a s'
    | Block s' => Block s'
    | Panic msg s' => Panic msg s'
    end.

Notation "x <- m ;; k" := (bind m (fun x => k))
  (at level 61, m at next level, right associativity).
Notation "m ;;; k" := (bind m (fun _ => k))
  (at level 61, right associativity).

Definition get : M InfluxDBDataStore := fun s => Ret s s.
Definition modify (f : InfluxDBDataStore -> InfluxDBDataStore) : M unit :=
  fun s => Ret tt (f s).
Definition block {A : Type} : M A := fun s => Block s.

(** [defer d; body]: [d] runs when [body] returns. *)
Definition defer {A : Type} (d : M unit) (body : M A) : M A :=
  a <- body ;; d ;;; ret a.

(** [i.mut.Lock()] and [i.mut.Unlock()] *)
Definition Lock : M unit :=
  fun s => if mut s then Block s else Ret tt (set_mut true s).

Definition Unlock : M unit :=
  fun s => if mut s then Ret tt (set_mut false s)
           else Panic "sync: unlock of unlocked mutex" s.

(** [i.flushNow <- v], [<-i.flushNow], [i.flushed <- v] *)
Definition send_flushNow (v : Z) : M unit :=
  fun s => if len (flushNow s) <? chanCap
           then Ret tt (set_flushNow (flushNow s ++ [v]) s)
           else Block s.

Definition recv_flushNow : M Z :=
  fun s => match flushNow s with
           | v :: rest => Ret v (set_flushNow rest s)
           | [] => Block s
           end.

Definition send_flushed (v : Z) : M unit :=
  fun s => if len (flushed s) <? chanCap
           then Ret tt (set_flushed (flushed s ++ [v]) s)
           else Block s.

(** [close(i.closed)] *)
Definition close_closed : M unit :=
  fun s => if closed s then Panic "close of closed channel" s
           else Ret tt (set_closed true s).

(** [close(i.quit)] *)
Definition close_quit : M unit :=
  fun s => if quit s then Panic "close of closed channel" s
           else Ret tt (set_quit true s).

(** [log.Errorf("failed to flush logs to backend: %v", err)] *)
Definition log_Errorf (line : string) : M unit :=
  modify (fun s => set_logged (logged s ++ [line]) s).

(** [i.con.Write(bp)] *)
Definition con_Write (bp : BatchPoints) : M (option error) :=
  fun s => let (c, r) := Client_Write (con s) bp in Ret r (set_con c s).

(** [i.con.QueryAsChunk(q)] *)
Definition con_QueryAsChunk (q : Query) : M (ChunkedResponse + error) :=
  fun s => let (c, r) := Client_QueryAsChunk (con s) q in Ret r (set_con c s).

(** ** Messages and query parameters *)

(** Modelled from the spec: the dialect tag of a [LogMessage] (the
    [logging] package is not part of the sources at hand); the spec names
    two message-format dialects, the legacy one being the [logging.RFC3164]
    the datastore tests for. *)
Inductive RFCType : Type := RFC3164 | RFC5424.

Definition RFCType_eqb (a b : RFCType) : bool :=
  match a, b with
  | RFC3164, RFC3164 | RFC5424, RFC5424 => true
  | _, _ => false
  end.

(** Modelled from the spec: [params.QueryParams] (declared outside the
    sources at hand): required [BinaryName], optional [Hostname],
    [StartDate] and [EndDate], and the severity field no query uses. *)
Record QueryParams : Type := mkQueryParams {
  qpBinaryName : string;
  qpHostname : string;
  qpStartDate : Time;
  qpEndDate : Time;
  qpSeverity : Z
}.

(** What the worker's [select] picks at one turn of its loop. *)
Inductive Event : Type :=
| CtxDone      (* case <-i.ctx.Done() *)
| TickerC      (* case <-ticker.C *)
| FlushNowCh   (* case <-i.flushNow *)
| QuitCh.      (* case <-i.quit *)

Section Datastore.

(** The severity and facility enumerations of the [logging] package with
    their [String()] methods, and the argument checks of the client
    library's [NewPoint] and [NewBatchPoints] ([None]: arguments
    accepted), are taken as they come. *)
Variables Severity Facility : Type.
Variable Severity_String : Severity -> string.
Variable Facility_String : Facility -> string.
Variable point_check :
  string -> list (string * string) -> list (string * string) -> Time -> option error.
Variable batch_check : BatchPointsConfig -> option error.

(** Modelled from the spec: [logging.LogMessage] (declared outside the
    sources at hand): timestamp, hostname, severity, facility,
    application name, body and dialect tag. *)
Record LogMessage : Type := mkLogMessage {
  Timestamp : Time;
  Hostname : string;
  MsgSeverity : Severity;
  MsgFacility : Facility;
  BinaryName : string;
  Message : string;
  RFC : RFCType
}.

(** [client.NewPoint(name, tags, fields, t)] *)
Definition NewPoint (name : string) (tags fields : list (string * string))
           (t : Time) : Point + error :=
  match point_check name tags fields t with
  | Some err => inr err
  | None => inl (mkPoint name tags fields t)
  end.

(** [client.NewBatchPoints(conf)] *)
Definition NewBatchPoints (conf : BatchPointsConfig) : BatchPoints + error :=
  match batch_check conf with
  | Some err => inr err
  | None => inl (mkBatchPoints (bpcDatabase conf) (bpcPrecision conf) [])
  end.

(** *** flush *)

Definition flush : M (option error) :=
  Lock ;;;
  defer Unlock (
    i <- get ;;
    match NewBatchPoints (mkBatchPointsConfig (Database (cfg i)) "ns") with
    | inr err => ret (Some (Wrap err "getting influx batch point"))
    | inl bp =>
        if 0 <? len (points i) then
          let bp := fold_left AddPoint (points i) bp in
          r <- con_Write bp ;;
          match r with
          | Some err => ret (Some (Wrap err "writing log line to influx"))
          | None => modify (set_points []) ;;; ret None
          end
        else ret None
    end).

(** *** doWork *)

(** The ticker period, in seconds. *)
Definition interval (c : Config) : Z :=
  if WriteInterval c =? 0 then 1 else WriteInterval c.

(** [time.Duration(interval) * time.Second]: an int64 count of
    nanoseconds. *)
Definition ticker_period (c : Config) : Z := wrap64 (interval c * 1000000000).

(** [time.NewTicker(d)] panics on a period that is not positive; the ticks
    of the ticker it makes are the [TickerC] events. *)
Definition NewTicker (d : Z) : M unit :=
  fun s => if d <=? 0 then Panic "non-positive interval for NewTicker" s
           else Ret tt s.

Definition log_flush_failure (r : option error) : M unit :=
  match r with
  | Some err =>
      log_Errorf ("failed to flush logs to backend: " ++ Error err)%string
  | None => ret tt
  end.

(** One turn of the loop, for the case the [select] picked; [true] when
    the case returns from [doWork].  A case that is not ready leaves the
    worker waiting. *)
Definition doWork_case (ev : Event) : M bool :=
  match ev with
  | CtxDone =>
      i <- get ;; if ctx i then ret true else block
  | TickerC =>
      r <- flush ;; log_flush_failure r ;;; ret false
  | FlushNowCh =>
      recv_flushNow ;;;
      Unlock ;;;
      r <- flush ;; log_flush_failure r ;;;
      Lock ;;;
      send_flushed 1 ;;;
      ret false
  | QuitCh =>
      i <- get ;; if quit i then ret true else block
  end.

(** The loop over the cases picked, in order; when none is left the
    worker waits at its [select]. *)
Fixpoint doWork_loop (evs : list Event) : M unit :=
  match evs with
  | [] => block
  | ev :: evs' =>
      stop <- doWork_case ev ;;
      if stop then ret tt else doWork_loop evs'
  end.

(** The worker once its ticker is made: the loop under the deferred
    function, which closes [closed] ([ticker.Stop()] touches nothing of
    the datastore). *)
Definition doWork_running (evs : list Event) : M unit :=
  defer close_closed (doWork_loop evs).

(** The ticker is made before the deferred function is registered: where
    [time.NewTicker] panics, [closed] stays open. *)
Definition doWork (evs : list Event) : M unit :=
  i <- get ;;
  NewTicker (ticker_period (cfg i)) ;;;
  doWork_running evs.


(** [i.Wait()]: [<-i.closed] *)
Definition Wait : M unit :=
  fun s => if closed s then Ret tt s else Block s.

(** [i.Start()]: the worker goroutine it launches is the event loop
    above. *)
Definition Start : M (option error) := ret None.

(** *** Write *)

(** What the worker goroutine, already in its loop, does while the caller
    is suspended: nothing once it has returned, otherwise the turns [evs]
    of its loop, up to where it returns or is itself suspended.  Each turn
    listed is taken whole: a turn the caller's timer cuts short, the
    worker still inside [con.Write] when the caller returns, is not a run
    of [worker_runs]; such runs are put together from the halves of
    [flush], of the flush-request case and of [Write] given further
    down. *)
Definition worker_runs (evs : list Event) : M unit :=
  fun s =>
    if closed s then Ret tt s
    else match doWork_running evs s with
         | Ret _ s' => Ret tt s'
         | Block s' => Ret tt s'
         | Panic msg s' => Panic msg s'
         end.

(** The [select] on [i.flushed] and [time.After(60 * time.Second)]:
    [true] when the acknowledgment is there, [false] when the 60
    seconds pass without one. *)
Definition await_flushed : M bool :=
  fun s => match flushed s with
           | _ :: rest => Ret true (set_flushed rest s)
           | [] => Ret false s
           end.

Definition highWaterMark : Z := 20000.

(** [now] is what [time.Now()] reads, after the call has taken the mutex;
    [worker] the turns of the worker loop taken, each from its start to
    its end, while the call, its request sent, waits for the
    acknowledgment. *)
Definition Write (now : Time) (worker : list Event) (logMsg : LogMessage)
  : M (option error) :=
  Lock ;;;
  defer Unlock (
    let tags := [("hostname", Hostname logMsg);
                 ("severity", Severity_String (MsgSeverity logMsg));
                 ("facility", Facility_String (MsgFacility logMsg))] in
    let fields := [("message", Message logMsg)] in
    let tm := if RFCType_eqb (RFC logMsg) RFC3164 then now
              else Timestamp logMsg in
    match NewPoint (BinaryName logMsg) tags fields tm with
    | inr err => ret (Some (Wrap err "adding new log message point"))
    | inl pt =>
        modify (fun i => set_points (points i ++ [pt]) i) ;;;
        i <- get ;;
        if highWaterMark <=? len (points i) then
          send_flushNow 1 ;;;
          worker_runs worker ;;;
          acked <- await_flushed ;;
          if acked then ret None
          else ret (Some (Errorf "timed out flushing logs"))
        else ret None
    end).

(** *** Stop *)

(** [worker]: the turns of the worker loop taken once [quit] is closed. *)
Definition Stop (worker : list Event) : M (option error) :=
  close_quit ;;; worker_runs worker ;;; Wait ;;; ret None.

(** *** Rotate *)

Definition Rotate (olderThan : Time) : M (option error) := ret None.

(** *** The reader *)

Record influxDBReader : Type := mkReader {
  params : QueryParams;
  result : option ChunkedResponse;
  done : bool
}.

Definition ResultReader (p : QueryParams) : influxDBReader :=
  mkReader p None false.

Definition set_result (r : ChunkedResponse) (i : influxDBReader) : influxDBReader :=
  mkReader (params i) (Some r) (done i).

Definition prepareQuery (i : influxDBReader) : string + error :=
  let p := params i in
  if (qpBinaryName p =? "")%string then inr (Errorf "missing application name")
  else
    let q := ("select time,severity,message from " ++ qpBinaryName p)%string in
    let q := if negb (Time_Equal (qpStartDate p) undefinedDate)
                || negb (Time_Equal (qpEndDate p) undefinedDate)
                || negb (qpHostname p =? "")%string
             then (q ++ " where ")%string else q in
    let options : list string := [] in
    let options :=
      if negb (Time_Equal (qpStartDate p) undefinedDate) then
        options ++ [("time >= " ++ fmt_d (UnixNano (qpStartDate p)))%string]
      else if negb (Time_Equal (qpEndDate p) undefinedDate) then
        options ++ [("time <= " ++ fmt_d (UnixNano (qpEndDate p)))%string]
      else options in
    let options :=
      if negb (qpHostname p =? "")%string then
        options ++ [("hostname='" ++ qpHostname p ++ "'")%string]
      else options in
    let q := if 0 <? len options
             then (q ++ String.concat " and " options)%string else q in
    inl q.

Definition newline : byte := "010"%byte.

(** [val[2].(string)]: [None] where Go panics (index out of range, or a
    value that is not a string). *)
Definition message_column (val : list Value) : option string :=
  match nth_error val 2 with
  | Some (VString s) => Some s
  | _ => None
  end.

(** The bytes one record adds to the buffer. *)
Definition record_bytes (s : string) : list byte :=
  let line := list_byte_of_string s in
  if (0 <? len line) && negb (Byte.eqb (last line newline) newline)
  then line ++ [newline] else line.

(** The three nested loops visit the rows in this order. *)
Definition rows (res : Response) : list (list Value) :=
  flat_map (fun r => flat_map Values (Series r)) (Results res).

Fixpoint write_rows (vals : list (list Value)) (buf : list byte)
  : option (list byte) :=
  match vals with
  | [] => Some buf
  | val :: rest =>
      match message_column val with
      | None => None
      | Some s => write_rows rest (buf ++ record_bytes s)
      end
  end.

(** The reader shares the datastore with the writer: [ReadNext] runs in
    the same monad.  [bytes.Buffer.Write] returns no error, so the branch
    wrapping one as "reading value" is never taken. *)
Definition ReadNext (i : influxDBReader)
  : M (influxDBReader * (list byte + error)) :=
  opened <-
    match result i with
    | None =>
        flush ;;;
        match prepareQuery i with
        | inr err => ret (inr (Wrap err "preparing query"))
        | inl query =>
            d <- get ;;
            let influxQ := NewQuery query (Database (cfg d)) "ns" in
            let influxQ := mkQuery (Command influxQ) (qDatabase influxQ)
                                   (qPrecision influxQ) 20000 in
            resp <- con_QueryAsChunk influxQ ;;
            match resp with
            | inr err => ret (inr (Wrap err "executing query"))
            | inl resp => ret (inl resp)
            end
        end
    | Some resp => ret (inl resp)
    end ;;
  match opened with
  | inr err => ret (i, inr err)
  | inl resp =>
      let (resp', next) := NextResponse resp in
      let i' := set_result resp' i in
      match next with
      | inr err =>
          if is_EOF err then ret (i', inr err)
          else ret (i', inr (Wrap err "reading results"))
      | inl res =>
          match write_rows (rows res) [] with
          | Some contents => ret (i', inl contents)
          | None => fun d => Panic "interface conversion" d
          end
      end
  end.

(** *** Query and List *)

(** [i.Query(q)] *)
Definition InfluxDBDataStore_Query (q : Query) : M (ChunkedResponse + error) :=
  resp <- con_QueryAsChunk q ;;
  match resp with
  | inr err => ret (inr err)
  | inl resp => ret (inl resp)
  end.

(** [val[0].(string)]: [None] where Go panics (a value that is not a
    string). *)
Definition name_column (val : list Value) : option string :=
  match val with
  | VString s :: _ => Some s
  | _ => None
  end.

(** The nested loops of [List] over the rows of one response, appending
    to [names]; a row of length 0 is skipped.  [None] where Go panics. *)
Fixpoint append_names (vals : list (list Value)) (names : list string)
  : option (list string) :=
  match vals with
  | [] => Some names
  | val :: rest =>
      if len val =? 0 then append_names rest names
      else match name_column val with
           | None => None
           | Some s => append_names rest (names ++ [s])
           end
  end.

(** The [for] loop of [List]: [resp.NextResponse()] until [io.EOF], by
    recursion on the chunks still to be decoded. *)
Fixpoint List_loop (resp : ChunkedResponse) (names : list string)
  : M (list string + error) :=
  match resp with
  | [] => ret (inl names)
  | inl msg :: _ => ret (inr (Wrap (Errorf msg) "fetching response"))
  | inr r :: rest =>
      match append_names (rows r) names with
      | Some names' => List_loop rest names'
      | None => fun d => Panic "interface conversion" d
      end
  end.

Definition List : M (list string + error) :=
  i <- get ;;
  let query := NewQuery "SHOW MEASUREMENTS" (Database (cfg i)) "ns" in
  resp <- con_QueryAsChunk query ;;
  match resp with
  | inr err => ret (inr (Wrap err "listing logs"))
  | inl resp => List_loop resp []
  end.

(** A producer calling [Write] for each message in turn, each with its
    clock reading, until one returns an error; the worker takes no turn
    meanwhile. *)
Fixpoint Writes (l : list (Time * LogMessage)) : M (option error) :=
  match l with
  | [] => ret None
  | (now, logMsg) :: rest =>
      r <- Write now [] logMsg ;;
      match r with
      | Some err => ret (Some err)
      | None => Writes rest
      end
  end.

(** *** A flush request served across a timeout

    [con.Write] is a round trip to the backing store, and the 60 seconds
    of a waiting [Write] can pass while the worker is inside it.  The
    operations below are [flush], the flush-request case of [doWork] and
    [Write], each cut in two: the worker where it calls [con.Write],
    holding the batch it built, and the caller at its [select]. *)

(** Where a flush stands: returned, or inside [con.Write(bp)] with the
    mutex taken. *)
Inductive FlushProgress : Type :=
| Flushed (r : option error)
| InFlight (bp : BatchPoints).

(** [flush] up to the call of [con.Write]. *)
Definition flush_submit : M FlushProgress :=
  Lock ;;;
  i <- get ;;
  match NewBatchPoints (mkBatchPointsConfig (Database (cfg i)) "ns") with
  | inr err =>
      defer Unlock (ret (Flushed (Some (Wrap err "getting influx batch point"))))
  | inl bp =>
      if 0 <? len (points i) then
        ret (InFlight (fold_left AddPoint (points i) bp))
      else defer Unlock (ret (Flushed None))
  end.

(** [flush] from the call of [con.Write] on. *)
Definition flush_settle (bp : BatchPoints) : M (option error) :=
  defer Unlock (
    r <- con_Write bp ;;
    match r with
    | Some err => ret (Some (Wrap err "writing log line to influx"))
    | None => modify (set_points []) ;;; ret None
    end).

Definition flush_finish (p : FlushProgress) : M (option error) :=
  match p with
  | Flushed r => ret r
  | InFlight bp => flush_settle bp
  end.

(** The flush-request case of [doWork] up to the call of [con.Write], and
    from there to the end of the turn. *)
Definition serve_begin : M FlushProgress :=
  recv_flushNow ;;;
  Unlock ;;;
  flush_submit.

Definition serve_end (p : FlushProgress) : M bool :=
  r <- flush_finish p ;;
  log_flush_failure r ;;;
  Lock ;;;
  send_flushed 1 ;;;
  ret false.

(** [Write] up to its [select]: [Some r] when the call has returned [r]
    without waiting, [None] when it waits, its request sent and the mutex
    still taken. *)
Definition Write_request (now : Time) (logMsg : LogMessage)
  : M (option (option error)) :=
  Lock ;;;
  let tags := [("hostname", Hostname logMsg);
               ("severity", Severity_String (MsgSeverity logMsg));
               ("facility", Facility_String (MsgFacility logMsg))] in
  let fields := [("message", Message logMsg)] in
  let tm := if RFCType_eqb (RFC logMsg) RFC3164 then now
            else Timestamp logMsg in
  match NewPoint (BinaryName logMsg) tags fields tm with
  | inr err =>
      defer Unlock (ret (Some (Some (Wrap err "adding new log message point"))))
  | inl pt =>
      modify (fun i => set_points (points i ++ [pt]) i) ;;;
      i <- get ;;
      if highWaterMark <=? len (points i) then
        send_flushNow 1 ;;; ret None
      else defer Unlock (ret (Some None))
  end.

(** [Write] from its [select] on. *)
Definition Write_resume : M (option error) :=
  defer Unlock (
    acked <- await_flushed ;;
    if acked then ret None
    else ret (Some (Errorf "timed out flushing logs"))).

(** A call of [Write] whose request the worker takes, the 60 seconds
    passing while the worker is at [p] in its flush: what the call
    returned, and [p]. *)
Definition Write_outlasted (now : Time) (logMsg : LogMessage)
  : M (option error * option FlushProgress) :=
  r <- Write_request now logMsg ;;
  match r with
  | Some r => ret (r, None)
  | None =>
      p <- serve_begin ;;
      e <- Write_resume ;;
      ret (e, Some p)
  end.

(** A call of [Write] that is waiting when the worker, at [p] in the flush
    of an earlier request, goes on to the end of its turn. *)
Definition Write_overtaken (p : FlushProgress) (now : Time) (logMsg : LogMessage)
  : M (option error) :=
  r <- Write_request now logMsg ;;
  match r with
  | Some r => ret r
  | None => serve_end p ;;; Write_resume
  end.

End Datastore.

(** ** Vocabulary of the statements *)

(** The batch a flush builds from the buffer of [s]. *)
Definition batch_of (s : InfluxDBDataStore) : BatchPoints :=
  mkBatchPoints (Database (cfg s)) "ns" (points s).

(** Point [p] is not lost in [s]: it is still buffered, or it is part of a
    batch the backing store accepted. *)
Definition kept (p : Point) (s : InfluxDBDataStore) : Prop :=
  In p (points s) \/ exists bp, In bp (accepted (con s)) /\ In p (bpPoints bp).

(** [sub] occurs in [s]. *)
Fixpoint contains (sub s : string) : bool :=
  if String.prefix sub s then true
  else match s with
       | EmptyString => false
       | String _ rest => contains sub rest
       end.


(** The message column of each row, when every row has one. *)
Fixpoint messages (vals : list (list Value)) : option (list string) :=
  match vals with
  | [] => Some []
  | val :: rest =>
      match message_column val, messages rest with
      | Some s, Some l => Some (s :: l)
      | _, _ => None
      end
  end.

(** The name in the first column of a row, for the rows that have one. *)
Definition row_names (val : list Value) : list string :=
  match val with
  | VString s :: _ => [s]
  | _ => []
  end.

(** A row [List] can take: empty, or starting with a string. *)
Definition listable (val : list Value) : Prop :=
  val = [] \/ exists s tl, val = VString s :: tl.

(** The responses of a stream that decodes without failure. *)
Definition responses (rs : list Response) : ChunkedResponse :=
  map (fun r => inr r) rs.

(** The server accepts the next batch. *)
Definition accepts_next (c : Client) : Prop :=
  write_replies c = [] \/ exists rest, write_replies c = None :: rest.

(** The state in which a goroutine returned, was suspended or panicked. *)
Definition reached {A : Type} (o : Outcome A) : InfluxDBDataStore :=
  match o with
  | Ret _ s => s
  | Block s => s
  | Panic _ s => s
  end.

(** [I] survives [m], however [m] ends. *)
Definition preserves {A : Type} (I : InfluxDBDataStore -> Prop) (m : M A) : Prop :=
  forall s, I s -> I (reached (m s)).

(** How the worker may move the datastore from [s] to [s'] while a caller
    of [Write] holds the mutex: the mutex stays held, [closed] is not
    touched by the loop, and any change comes with an acknowledgment in
    the channel. *)
Definition waited (s s' : InfluxDBDataStore) : Prop :=
  mut s' = true /\ closed s' = closed s
  /\ (s' = s \/ flushed s' <> [])
  /\ (flushed s <> [] -> flushed s' <> []).

Section PointOfMessage.

Variables Severity Facility : Type.
Variable Severity_String : Severity -> string.
Variable Facility_String : Facility -> string.

(** The tags, the field and the point [Write] builds for a message when
    the clock reads [now]. *)
Definition tags_of (logMsg : LogMessage Severity Facility) : list (string * string) :=
  [("hostname", Hostname logMsg);
   ("severity", Severity_String (MsgSeverity logMsg));
   ("facility", Facility_String (MsgFacility logMsg))].

Definition fields_of (logMsg : LogMessage Severity Facility) : list (string * string) :=
  [("message", Message logMsg)].

Definition stamp_of (now : Time) (logMsg : LogMessage Severity Facility) : Time :=
  match RFC logMsg with
  | RFC3164 => now
  | RFC5424 => Timestamp logMsg
  end.

Definition point_of (now : Time) (logMsg : LogMessage Severity Facility) : Point :=
  mkPoint (BinaryName logMsg) (tags_of logMsg) (fields_of logMsg)
          (stamp_of now logMsg).

(** The message with another embedded timestamp. *)
Definition with_Timestamp (t : Time) (logMsg : LogMessage Severity Facility)
  : LogMessage Severity Facility :=
  mkLogMessage t (Hostname logMsg) (MsgSeverity logMsg) (MsgFacility logMsg)
               (BinaryName logMsg) (Message logMsg) (RFC logMsg).

(** The client library accepts the point of [logMsg]. *)
Definition point_accepted
           (point_check : string -> list (string * string) ->
                          list (string * string) -> Time -> option error)
           (now : Time) (logMsg : LogMessage Severity Facility) : Prop :=
  point_check (BinaryName logMsg) (tags_of logMsg) (fields_of logMsg)
              (stamp_of now logMsg) = None.

(** The state in which a caller of [Write] at the mark starts waiting: the
    point appended, one request queued, the mutex held. *)
Definition requested (now : Time) (logMsg : LogMessage Severity Facility)
           (s : InfluxDBDataStore) : InfluxDBDataStore :=
  set_flushNow (flushNow s ++ [1])
    (set_points (points s ++ [point_of now logMsg]) (set_mut true s)).

End PointOfMessage.

(** ** A sample instantiation, to run the model on concrete inputs:
    severities and facilities are numbers printed in decimal and the
    client library accepts every point and every batch configuration. *)

Definition sample_point_check (_ : string) (_ _ : list (string * string)) (_ : Time)
  : option error := None.
Definition sample_batch_check (_ : BatchPointsConfig) : option error := None.

Definition sample_flush : M (option error) := flush sample_batch_check.
Definition sample_doWork : list Event -> M unit := doWork sample_batch_check.
Definition sample_Write : Time -> list Event -> LogMessage Z Z -> M (option error) :=
  Write fmt_d fmt_d sample_point_check sample_batch_check.
Definition sample_ReadNext : influxDBReader -> M (influxDBReader * (list byte + error)) :=
  ReadNext sample_batch_check.

Definition sample_cfg : Config := mkConfig "logs" 0.

(** A server that accepts every batch and has nothing to return. *)
Definition sample_client : Client := mkClient [] [] [] (fun _ => inr []) [].

(** The same server, refusing the next batch. *)
Definition failing_client : Client :=
  mkClient [Some "connection refused"] [] [] (fun _ => inr []) [].

(** 2019-06-01 00:00:00 UTC and 2019-06-01 00:00:05 UTC. *)
Definition t_msg : Time := mkTime 63694944000 0.
Definition t_now : Time := mkTime 63694944005 0.

Definition legacy_msg : LogMessage Z Z :=
  mkLogMessage t_msg "h1" 6 1 "app" "started" RFC3164.
Definition modern_msg : LogMessage Z Z :=
  mkLogMessage t_msg "h1" 6 1 "app" "started" RFC5424.

Definition sample_point : Point :=
  mkPoint "app" [("hostname", "h1"); ("severity", "6"); ("facility", "1")]
          [("message", "started")] t_now.

(** A running datastore holding one point. *)
Definition one_point_store (c : Client) : InfluxDBDataStore :=
  set_points [sample_point] (NewInfluxDBDatastore sample_cfg c).

(** A datastore one point short of the high-water mark. *)
Definition nearly_full_store (c : Client) : InfluxDBDataStore :=
  set_points (repeat sample_point (Z.to_nat 19999)) (NewInfluxDBDatastore sample_cfg c).

(** The datastore once the context is cancelled and the worker has
    returned. *)
Definition stopped (s : InfluxDBDataStore) : InfluxDBDataStore :=
  set_closed true (set_ctx true s).

(** A datastore over the mark whose worker has returned and whose request
    queue holds ten unserved requests. *)
Definition jammed_store : InfluxDBDataStore :=
  set_flushNow (repeat 1 (Z.to_nat 10))
    (set_points (repeat sample_point (Z.to_nat 20009))
       (stopped (NewInfluxDBDatastore sample_cfg sample_client))).


(** [n] calls of [Write] in a row, none served by the worker, each
    returning the timeout error. *)
Fixpoint timed_out_writes (n : nat) (s : InfluxDBDataStore) : option InfluxDBDataStore :=
  match n with
  | O => Some s
  | S n' =>
      match sample_Write t_now [] legacy_msg s with
      | Ret (Some (Errorf "timed out flushing logs")) s' => timed_out_writes n' s'
      | _ => None
      end
  end.

(** [n] calls of [Write] in a row, each returning nil. *)
Fixpoint plain_writes (n : nat) (s : InfluxDBDataStore) : option InfluxDBDataStore :=
  match n with
  | O => Some s
  | S n' =>
      match sample_Write t_now [] legacy_msg s with
      | Ret None s' => plain_writes n' s'
      | _ => None
      end
  end.


Definition sample_params : QueryParams :=
  mkQueryParams "app" "h1" t_msg undefinedDate 0.


(** The state a call of [Write] on [nearly_full_store] leaves when its
    request is not served: the point appended, the request queued. *)
Definition timed_out_store : InfluxDBDataStore :=
  set_flushNow [1]
    (set_points (repeat sample_point (Z.to_nat 19999) ++ [sample_point])
       (NewInfluxDBDatastore sample_cfg sample_client)).

(** Query parameters without an application name. *)
Definition nameless_params : QueryParams :=
  mkQueryParams "" "h1" undefinedDate undefinedDate 0.

(** A client library that refuses every point. *)
Definition refusing_point_check (_ : string) (_ _ : list (string * string))
           (_ : Time) : option error := Some (Errorf "max key length exceeded").

(** A server whose queries fail, and one that knows two measurements. *)
Definition unreachable_client : Client :=
  mkClient [] [] [] (fun _ => inl "connection refused") [].

Definition catalog_response : Response :=
  mkResponse [mkResult [mkRow [[VString "app"]; []; [VString "kernel"]]]].

Definition catalog_client : Client :=
  mkClient [] [] [] (fun _ => inr (responses [catalog_response])) [].

(** A server whose catalog is cut by a decoding failure, and one whose
    catalog holds a row that starts with a number. *)
Definition broken_catalog_client : Client :=
  mkClient [] [] []
           (fun _ => inr (responses [catalog_response] ++ [inl "unexpected EOF"]))
           [].

Definition odd_catalog_response : Response :=
  mkResponse [mkResult [mkRow [[VString "app"]; [VNumber 7]]]].

Definition odd_catalog_client : Client :=
  mkClient [] [] [] (fun _ => inr (responses [odd_catalog_response])) [].

(** A chunk holding a row of two columns, and a reader about to decode
    it. *)
Definition short_row_response : Response :=
  mkResponse [mkResult [mkRow [[VNumber 1559347200000000000; VString "INFO"]]]].

Definition short_row_reader : influxDBReader :=
  set_result [inr short_row_response] (ResultReader sample_params).

(** The query of [sample_params] and the catalog query, as sent. *)
Definition sample_query : string :=
  "select time,severity,message from app where time >= 1559347200000000000 and hostname='h1'".

(** The same filter with an end date and a severity. *)
Definition sample_params_until : QueryParams :=
  mkQueryParams "app" "h1" t_msg t_now 3.

(** Two messages in their order of arrival. *)
Definition two_messages : list (Time * LogMessage Z Z) :=
  [(t_now, legacy_msg); (t_now, modern_msg)].

(** The datastore after a [Stop] the worker has honoured. *)
Definition stopped_by_quit : InfluxDBDataStore :=
  set_closed true (set_quit true (one_point_store sample_client)).

(** Three calls of [Write] on [nearly_full_store] around one slow
    [con.Write]: the point of the second call, the batch the worker built
    on the request of the first, and the datastore as each call left
    it. *)
Definition late_point : Point :=
  mkPoint "app" [("hostname", "h1"); ("severity", "6"); ("facility", "1")]
          [("message", "started")] t_msg.

Definition inflight_batch : BatchPoints :=
  mkBatchPoints "logs" "ns" (repeat sample_point (Z.to_nat 19999) ++ [sample_point]).

Definition outlasted_store : InfluxDBDataStore :=
  set_points (repeat sample_point (Z.to_nat 19999) ++ [sample_point])
    (NewInfluxDBDatastore sample_cfg sample_client).

Definition twice_timed_out_store : InfluxDBDataStore :=
  set_flushNow [1]
    (set_points ((repeat sample_point (Z.to_nat 19999) ++ [sample_point])
                 ++ [late_point])
       (NewInfluxDBDatastore sample_cfg sample_client)).

Definition overtaken_store : InfluxDBDataStore :=
  set_flushNow [1; 1]
    (NewInfluxDBDatastore sample_cfg
       (mkClient [] [inflight_batch] [inflight_batch] (fun _ => inr []) [])).

(** * Properties *)

(** ** Records, lists and strings *)

Lemma unlock_relock (s : InfluxDBDataStore) :
  mut s = false -> set_mut false (set_mut true s) = s.
Proof. destruct s; simpl; intros ->; reflexivity. Qed.

Lemma len_app {A : Type} (l1 l2 : list A) : len (l1 ++ l2) = len l1 + len l2.
Proof. unfold len. rewrite length_app. lia. Qed.

Lemma len_pos_cons {A : Type} (a : A) (l : list A) : (0 <? len (a :: l)) = true.
Proof. apply Z.ltb_lt. unfold len. simpl List.length. lia. Qed.

Lemma fold_AddPoint (ps : list Point) :
  forall bp,
    fold_left AddPoint ps bp =
    mkBatchPoints (bpDatabase bp) (bpPrecision bp) (bpPoints bp ++ ps).
Proof.
  induction ps as [|p ps IH]; intros bp; simpl.
  - rewrite app_nil_r. destruct bp; reflexivity.
  - rewrite IH. simpl. rewrite <- app_assoc. reflexivity.
Qed.

Lemma Time_Equal_eq (t u : Time) : Time_Equal t u = true <-> t = u.
Proof.
  destruct t as [a b], u as [c d]. unfold Time_Equal. simpl.
  rewrite andb_true_iff, !Z.eqb_eq. split.
  - intros [-> ->]. reflexivity.
  - intros H. inversion H. auto.
Qed.

Lemma Time_Equal_neq (t u : Time) : Time_Equal t u = false <-> t <> u.
Proof.
  rewrite <- Time_Equal_eq. destruct (Time_Equal t u); split; congruence.
Qed.

Lemma string_eqb_empty_neq (s : string) : (s =? "")%string = false <-> s <> "".
Proof. apply String.eqb_neq. Qed.

Lemma string_app_assoc (a b c : string) :
  ((a ++ b) ++ c = a ++ (b ++ c))%string.
Proof. induction a as [|x a IH]; simpl; [reflexivity|rewrite IH; reflexivity]. Qed.

Lemma string_app_nil_r (a : string) : (a ++ "" = a)%string.
Proof. induction a as [|x a IH]; simpl; [reflexivity|rewrite IH; reflexivity]. Qed.

(** ** flush, case by case *)

Section FlushFacts.

Variable batch_check : BatchPointsConfig -> option error.

Lemma flush_locked (s : InfluxDBDataStore) :
  mut s = true -> flush batch_check s = Block s.
Proof.
  intros H. unfold flush, bind, Lock. rewrite H. reflexivity.
Qed.

Lemma flush_unlocked (s : InfluxDBDataStore) :
  mut s = false ->
  flush batch_check s =
  match batch_check (mkBatchPointsConfig (Database (cfg s)) "ns") with
  | Some err => Ret (Some (Wrap err "getting influx batch point")) s
  | None =>
      match points s with
      | [] => Ret None s
      | _ :: _ =>
          match Client_Write (con s) (batch_of s) with
          | (c, Some err) =>
              Ret (Some (Wrap err "writing log line to influx")) (set_con c s)
          | (c, None) => Ret None (set_points [] (set_con c s))
          end
      end
  end.
Proof.
  intros H. destruct s as [cf cl m ps cx cd qt fn fd lg]. simpl in H. subst m.
  unfold flush, defer, bind, Lock, Unlock, get, NewBatchPoints. simpl.
  destruct (batch_check _) as [err|]; [reflexivity|].
  destruct ps as [|p ps]; [reflexivity|].
  rewrite len_pos_cons. unfold con_Write, batch_of. simpl.
  rewrite fold_AddPoint. simpl.
  destruct (Client_Write cl _) as [c [err|]]; reflexivity.
Qed.

(** A flush leaves the mutex as it found it, and touches neither the
    channels nor the log. *)
Lemma flush_frame (s : InfluxDBDataStore) :
  exists o, flush batch_check s = o /\
    match o with
    | Ret _ s' | Block s' =>
        mut s' = mut s /\ closed s' = closed s /\ flushNow s' = flushNow s
        /\ flushed s' = flushed s /\ logged s' = logged s /\ cfg s' = cfg s
        /\ ctx s' = ctx s /\ quit s' = quit s
    | Panic _ _ => False
    end.
Proof.
  eexists. split; [reflexivity|].
  destruct (mut s) eqn:Hm.
  - rewrite (flush_locked _ Hm). rewrite Hm. repeat split; reflexivity.
  - rewrite (flush_unlocked _ Hm).
    destruct (batch_check _); [repeat split; auto|].
    destruct (points s); [repeat split; auto|].
    destruct (Client_Write _ _) as [c [err|]]; simpl; repeat split; auto.
Qed.

Lemma Client_Write_submitted (c : Client) (bp : BatchPoints) :
  submitted (fst (Client_Write c bp)) = submitted c ++ [bp].
Proof.
  unfold Client_Write. destruct (write_replies c) as [|[msg|] rest]; reflexivity.
Qed.

Lemma Client_Write_queries (c : Client) (bp : BatchPoints) :
  queries (fst (Client_Write c bp)) = queries c.
Proof.
  unfold Client_Write. destruct (write_replies c) as [|[msg|] rest]; reflexivity.
Qed.

Lemma Client_Write_accepted (c : Client) (bp : BatchPoints) :
  accepted (fst (Client_Write c bp)) =
  match snd (Client_Write c bp) with
  | Some _ => accepted c
  | None => accepted c ++ [bp]
  end.
Proof.
  unfold Client_Write. destruct (write_replies c) as [|[msg|] rest]; reflexivity.
Qed.

(** No flush loses a point. *)
Lemma flush_keeps (p : Point) : preserves (kept p) (flush batch_check).
Proof.
  intros s Hk. destruct (mut s) eqn:Hm.
  - rewrite (flush_locked _ Hm). exact Hk.
  - rewrite (flush_unlocked _ Hm).
    destruct (batch_check _); [exact Hk|].
    destruct (points s) as [|q qs] eqn:Hp; [exact Hk|].
    pose proof (Client_Write_accepted (con s) (batch_of s)) as Ha.
    destruct (Client_Write (con s) (batch_of s)) as [c [err|]]; simpl in Ha.
    + destruct Hk as [Hk|[bp [Hb Hin]]].
      * left. exact Hk.
      * right. exists bp. simpl. rewrite Ha. auto.
    + right. destruct Hk as [Hk|[bp [Hb Hin]]].
      * exists (batch_of s). simpl. rewrite Ha. split.
        -- apply in_or_app. right. left. reflexivity.
        -- exact Hk.
      * exists bp. simpl. rewrite Ha. split; [apply in_or_app; auto|exact Hin].
Qed.

(** No flush executes a query. *)
Lemma flush_queries (s : InfluxDBDataStore) :
  match flush batch_check s with
  | Ret _ s' | Block s' => queries (con s') = queries (con s)
  | Panic _ _ => False
  end.
Proof.
  destruct (mut s) eqn:Hm.
  - rewrite (flush_locked _ Hm). reflexivity.
  - rewrite (flush_unlocked _ Hm).
    destruct (batch_check _); [reflexivity|].
    destruct (points s); [reflexivity|].
    pose proof (Client_Write_queries (con s) (batch_of s)) as Hq.
    destruct (Client_Write _ _) as [c [err|]]; simpl in *; exact Hq.
Qed.

(** With the mutex free a flush returns. *)
Lemma flush_returns (s : InfluxDBDataStore) :
  mut s = false -> exists r s', flush batch_check s = Ret r s' /\ mut s' = false.
Proof.
  intros Hm. rewrite (flush_unlocked _ Hm).
  destruct (batch_check _); [eauto|].
  destruct (points s); [eauto|].
  destruct (Client_Write _ _) as [c [err|]]; eexists; eexists; split;
    try reflexivity; simpl; exact Hm.
Qed.

End FlushFacts.

(** ** Invariants of monadic code *)

Lemma preserves_ret {A : Type} (I : InfluxDBDataStore -> Prop) (a : A) :
  preserves I (ret a).
Proof. intros s H. exact H. Qed.

Lemma preserves_block {A : Type} (I : InfluxDBDataStore -> Prop) :
  preserves I (@block A).
Proof. intros s H. exact H. Qed.

Lemma preserves_get (I : InfluxDBDataStore -> Prop) : preserves I get.
Proof. intros s H. exact H. Qed.

Lemma preserves_bind {A B : Type} (I : InfluxDBDataStore -> Prop)
      (m : M A) (k : A -> M B) :
  preserves I m -> (forall a, preserves I (k a)) -> preserves I (bind m k).
Proof.
  intros Hm Hk s H. unfold bind. specialize (Hm s H).
  destruct (m s) as [a s'|s'|msg s']; auto. apply Hk. exact Hm.
Qed.

Lemma preserves_defer {A : Type} (I : InfluxDBDataStore -> Prop)
      (d : M unit) (body : M A) :
  preserves I d -> preserves I body -> preserves I (defer d body).
Proof.
  intros Hd Hb. unfold defer. apply preserves_bind; [exact Hb|].
  intros a. apply preserves_bind; [exact Hd|]. intros _. apply preserves_ret.
Qed.

(** Whatever touches neither the buffer nor the connection keeps every
    point. *)
Lemma preserves_kept_frame {A : Type} (p : Point) (m : M A) :
  (forall s, points (reached (m s)) = points s /\ con (reached (m s)) = con s) ->
  preserves (kept p) m.
Proof.
  intros Hf s Hk. destruct (Hf s) as [Hp Hc].
  unfold kept. rewrite Hp, Hc. exact Hk.
Qed.

Ltac frame_op :=
  apply preserves_kept_frame; intros s;
  repeat match goal with
         | |- context [if ?b then _ else _] => destruct b
         | |- context [match ?l with [] => _ | _ :: _ => _ end] => destruct l
         end; simpl; auto.

Lemma Lock_keeps (p : Point) : preserves (kept p) Lock.
Proof. unfold Lock. frame_op. Qed.

Lemma Unlock_keeps (p : Point) : preserves (kept p) Unlock.
Proof. unfold Unlock. frame_op. Qed.

Lemma send_flushNow_keeps (p : Point) (v : Z) : preserves (kept p) (send_flushNow v).
Proof. unfold send_flushNow. frame_op. Qed.

Lemma recv_flushNow_keeps (p : Point) : preserves (kept p) recv_flushNow.
Proof. unfold recv_flushNow. frame_op. Qed.

Lemma send_flushed_keeps (p : Point) (v : Z) : preserves (kept p) (send_flushed v).
Proof. unfold send_flushed. frame_op. Qed.

Lemma close_closed_keeps (p : Point) : preserves (kept p) close_closed.
Proof. unfold close_closed. frame_op. Qed.

Lemma log_Errorf_keeps (p : Point) (line : string) : preserves (kept p) (log_Errorf line).
Proof. unfold log_Errorf, modify. frame_op. Qed.

(** ** The worker *)

Section WorkerFacts.

Variable batch_check : BatchPointsConfig -> option error.

Lemma log_flush_failure_keeps (p : Point) (r : option error) :
  preserves (kept p) (log_flush_failure r).
Proof.
  destruct r; simpl; [apply log_Errorf_keeps|apply preserves_ret].
Qed.

Lemma doWork_case_keeps (p : Point) (ev : Event) :
  preserves (kept p) (doWork_case batch_check ev).
Proof.
  destruct ev; simpl.
  - apply preserves_bind; [apply preserves_get|].
    intros i. destruct (ctx i); [apply preserves_ret|apply preserves_block].
  - apply preserves_bind; [apply flush_keeps|]. intros r.
    apply preserves_bind; [apply log_flush_failure_keeps|].
    intros _. apply preserves_ret.
  - apply preserves_bind; [apply recv_flushNow_keeps|]. intros _.
    apply preserves_bind; [apply Unlock_keeps|]. intros _.
    apply preserves_bind; [apply flush_keeps|]. intros r.
    apply preserves_bind; [apply log_flush_failure_keeps|]. intros _.
    apply preserves_bind; [apply Lock_keeps|]. intros _.
    apply preserves_bind; [apply send_flushed_keeps|]. intros _.
    apply preserves_ret.
  - apply preserves_bind; [apply preserves_get|].
    intros i. destruct (quit i); [apply preserves_ret|apply preserves_block].
Qed.

Lemma doWork_loop_keeps (p : Point) (evs : list Event) :
  preserves (kept p) (doWork_loop batch_check evs).
Proof.
  induction evs as [|ev evs IH]; simpl.
  - apply preserves_block.
  - apply preserves_bind; [apply doWork_case_keeps|].
    intros [|]; [apply preserves_ret|exact IH].
Qed.

Lemma doWork_running_keeps (p : Point) (evs : list Event) :
  preserves (kept p) (doWork_running batch_check evs).
Proof.
  unfold doWork_running. apply preserves_defer;
    [apply close_closed_keeps|apply doWork_loop_keeps].
Qed.

Lemma doWork_keeps (p : Point) (evs : list Event) :
  preserves (kept p) (doWork batch_check evs).
Proof.
  unfold doWork. apply preserves_bind; [apply preserves_get|]. intros i.
  apply preserves_bind; [|intros _; apply doWork_running_keeps].
  intros s Hk. unfold NewTicker. destruct (_ <=? 0); exact Hk.
Qed.

Lemma worker_runs_keeps (p : Point) (evs : list Event) :
  preserves (kept p) (worker_runs batch_check evs).
Proof.
  intros s Hk. unfold worker_runs. destruct (closed s); [exact Hk|].
  pose proof (@doWork_running_keeps p evs s Hk) as H.
  destruct (doWork_running batch_check evs s); exact H.
Qed.

Lemma waited_refl (s : InfluxDBDataStore) : mut s = true -> waited s s.
Proof. intros H. repeat split; auto. Qed.

Lemma waited_trans (s1 s2 s3 : InfluxDBDataStore) :
  waited s1 s2 -> waited s2 s3 -> waited s1 s3.
Proof.
  intros (Hm1 & Hc1 & Hs1 & Hf1) (Hm2 & Hc2 & Hs2 & Hf2).
  split; [exact Hm2|]. split; [congruence|]. split.
  - destruct Hs2 as [->|H]; [|right; exact H].
    destruct Hs1 as [->|H]; [left; reflexivity|right; exact H].
  - intros H. apply Hf2, Hf1, H.
Qed.

Lemma doWork_case_waited (ev : Event) (s : InfluxDBDataStore) :
  mut s = true ->
  match doWork_case batch_check ev s with
  | Ret _ s' | Block s' => waited s s'
  | Panic _ _ => False
  end.
Proof.
  intros Hm. destruct ev; simpl; unfold bind, get.
  - destruct (ctx s); apply waited_refl; exact Hm.
  - rewrite (flush_locked _ _ Hm). apply waited_refl; exact Hm.
  - unfold recv_flushNow.
    destruct (flushNow s) as [|v rest] eqn:Hq; [apply waited_refl; exact Hm|].
    unfold Unlock. simpl. rewrite Hm.
    set (s1 := set_mut false (set_flushNow rest s)).
    destruct (flush_returns batch_check s1 eq_refl) as (r & s2 & Hfl & Hm2).
    pose proof (flush_frame batch_check s1) as (o & Ho & Hfr).
    rewrite Hfl in Ho. subst o. rewrite Hfl.
    destruct Hfr as (_ & Hcl & _ & Hfd & _).
    assert (Hlog : exists s3, log_flush_failure r s2 = Ret tt s3
              /\ mut s3 = false /\ closed s3 = closed s2
              /\ flushed s3 = flushed s2).
    { destruct r; simpl; unfold log_Errorf, modify; eexists; split;
        try reflexivity; simpl; auto. }
    destruct Hlog as (s3 & Hlog & Hm3 & Hc3 & Hf3). rewrite Hlog.
    unfold Lock. rewrite Hm3. unfold send_flushed. simpl.
    assert (Hc : closed s3 = closed s) by (rewrite Hc3, Hcl; reflexivity).
    destruct (len (flushed s3) <? chanCap) eqn:Hcap; simpl.
    + split; [reflexivity|]. split; [exact Hc|]. split.
      * right. intros H. apply app_eq_nil in H. destruct H; discriminate.
      * intros _ H. apply app_eq_nil in H. destruct H; discriminate.
    + assert (Hne : flushed s3 <> []).
      { intros H. rewrite H in Hcap. discriminate. }
      split; [reflexivity|]. split; [exact Hc|]. split.
      * right. exact Hne.
      * intros _. exact Hne.
  - destruct (quit s); apply waited_refl; exact Hm.
Qed.

Lemma doWork_loop_waited (evs : list Event) :
  forall s, mut s = true ->
  match doWork_loop batch_check evs s with
  | Ret _ s' | Block s' => waited s s'
  | Panic _ _ => False
  end.
Proof.
  induction evs as [|ev evs IH]; intros s Hm; simpl.
  - apply waited_refl; exact Hm.
  - unfold bind. pose proof (doWork_case_waited ev s Hm) as H.
    destruct (doWork_case batch_check ev s) as [stop s1|s1|msg s1]; auto.
    destruct stop; [exact H|].
    assert (Hm1 : mut s1 = true) by apply H.
    specialize (IH s1 Hm1).
    destruct (doWork_loop batch_check evs s1) as [u s2|s2|msg s2]; auto;
      eapply waited_trans; eauto.
Qed.

(** The worker's share of a caller's wait: it always ends with the
    mutex still held, and when no acknowledgment is in the channel the
    buffer, the connection, the request queue and the log are as the
    caller left them. *)
Lemma worker_runs_waited (evs : list Event) (s : InfluxDBDataStore) :
  mut s = true ->
  exists s', worker_runs batch_check evs s = Ret tt s'
    /\ mut s' = true
    /\ (flushed s <> [] -> flushed s' <> [])
    /\ (flushed s' = [] ->
        points s' = points s /\ con s' = con s /\ flushNow s' = flushNow s
        /\ logged s' = logged s /\ cfg s' = cfg s).
Proof.
  intros Hm. unfold worker_runs. destruct (closed s) eqn:Hc.
  - exists s. repeat split; auto.
  - unfold doWork_running, defer, bind.
    pose proof (doWork_loop_waited evs s Hm) as H.
    destruct (doWork_loop batch_check evs s) as [u s1|s1|msg s1]; [| |contradiction].
    + destruct H as (Hm1 & Hc1 & Hs1 & Hf1).
      unfold close_closed. rewrite Hc1, Hc. simpl.
      exists (set_closed true s1). repeat split; simpl; auto;
        destruct Hs1 as [->|Hne]; auto; contradiction.
    + destruct H as (Hm1 & Hc1 & Hs1 & Hf1).
      exists s1. repeat split; auto;
        destruct Hs1 as [->|Hne]; auto; contradiction.
Qed.

End WorkerFacts.

(** ** Write, case by case *)

Section WriteFacts.

Variables Severity Facility : Type.
Variable Severity_String : Severity -> string.
Variable Facility_String : Facility -> string.
Variable point_check :
  string -> list (string * string) -> list (string * string) -> Time -> option error.
Variable batch_check : BatchPointsConfig -> option error.

Local Abbreviation Write' := (Write Severity_String Facility_String point_check batch_check).
Local Abbreviation point_of' := (point_of Severity_String Facility_String).
Local Abbreviation tags_of' := (tags_of Severity_String Facility_String).
Local Abbreviation point_accepted' :=
  (point_accepted Severity_String Facility_String point_check).
Local Abbreviation requested' := (requested Severity_String Facility_String).

Lemma stamp_of_eq (now : Time) (logMsg : LogMessage Severity Facility) :
  (if RFCType_eqb (RFC logMsg) RFC3164 then now else Timestamp logMsg)
  = stamp_of now logMsg.
Proof. unfold stamp_of. destruct (RFC logMsg); reflexivity. Qed.

Lemma Write_locked now w logMsg s :
  mut s = true -> Write' now w logMsg s = Block s.
Proof. intros H. unfold Write, bind, Lock. rewrite H. reflexivity. Qed.

Lemma Write_rejected now w logMsg s err :
  mut s = false ->
  point_check (BinaryName logMsg) (tags_of' logMsg) (fields_of logMsg)
              (stamp_of now logMsg) = Some err ->
  Write' now w logMsg s
  = Ret (Some (Wrap err "adding new log message point")) s.
Proof.
  intros Hm Hc. unfold Write, bind, Lock, defer, NewPoint. rewrite Hm.
  rewrite stamp_of_eq. fold (tags_of' logMsg). fold (fields_of logMsg).
  rewrite Hc. unfold bind, ret, Unlock. simpl.
  rewrite unlock_relock by exact Hm. reflexivity.
Qed.

Lemma Write_below_mark now w logMsg s :
  mut s = false -> point_accepted' now logMsg ->
  len (points s) + 1 < highWaterMark ->
  Write' now w logMsg s
  = Ret None (set_points (points s ++ [point_of' now logMsg]) s).
Proof.
  intros Hm Hc Hl. unfold Write, bind, Lock, defer, NewPoint. rewrite Hm.
  rewrite stamp_of_eq. fold (tags_of' logMsg). fold (fields_of logMsg).
  rewrite Hc. unfold bind, ret, Unlock, modify, get. simpl.
  fold (point_of' now logMsg).
  replace (highWaterMark <=? len (points s ++ [point_of' now logMsg])) with false.
  2:{ symmetry. apply Z.leb_gt. rewrite len_app. unfold len at 2. simpl. lia. }
  simpl. destruct s; simpl in *; subst; reflexivity.
Qed.

Lemma Write_jammed now w logMsg s :
  mut s = false -> point_accepted' now logMsg ->
  highWaterMark <= len (points s) + 1 ->
  chanCap <= len (flushNow s) ->
  Write' now w logMsg s
  = Block (set_points (points s ++ [point_of' now logMsg]) (set_mut true s)).
Proof.
  intros Hm Hc Hl Hq. unfold Write, bind, Lock, defer, NewPoint. rewrite Hm.
  rewrite stamp_of_eq. fold (tags_of' logMsg). fold (fields_of logMsg).
  rewrite Hc. unfold bind, ret, Unlock, modify, get. simpl.
  fold (point_of' now logMsg).
  replace (highWaterMark <=? len (points s ++ [point_of' now logMsg])) with true.
  2:{ symmetry. apply Z.leb_le. rewrite len_app. unfold len at 2. simpl. lia. }
  unfold send_flushNow. simpl.
  replace (len (flushNow s) <? chanCap) with false
    by (symmetry; apply Z.ltb_ge; exact Hq).
  reflexivity.
Qed.

Lemma Write_at_mark now w logMsg s :
  mut s = false -> point_accepted' now logMsg ->
  highWaterMark <= len (points s) + 1 ->
  len (flushNow s) < chanCap ->
  exists s2,
    worker_runs batch_check w (requested' now logMsg s) = Ret tt s2
    /\ mut s2 = true
    /\ Write' now w logMsg s =
       match flushed s2 with
       | [] => Ret (Some (Errorf "timed out flushing logs")) (set_mut false s2)
       | _ :: rest => Ret None (set_mut false (set_flushed rest s2))
       end.
Proof.
  intros Hm Hc Hl Hq.
  destruct (worker_runs_waited batch_check w (requested' now logMsg s) eq_refl)
    as (s2 & Hw & Hm2 & _).
  exists s2. split; [exact Hw|]. split; [exact Hm2|].
  unfold Write, bind, Lock, defer, NewPoint. rewrite Hm.
  rewrite stamp_of_eq. fold (tags_of' logMsg). fold (fields_of logMsg).
  rewrite Hc. unfold bind, ret, modify, get. simpl.
  fold (point_of' now logMsg).
  replace (highWaterMark <=? len (points s ++ [point_of' now logMsg])) with true.
  2:{ symmetry. apply Z.leb_le. rewrite len_app. unfold len at 2. simpl. lia. }
  unfold send_flushNow. simpl.
  replace (len (flushNow s) <? chanCap) with true
    by (symmetry; apply Z.ltb_lt; exact Hq).
  fold (requested' now logMsg s). rewrite Hw.
  unfold await_flushed, Unlock.
  destruct (flushed s2) as [|a rest]; simpl; rewrite Hm2; reflexivity.
Qed.

End WriteFacts.

(** ** The halves of flush, of the flush-request case and of Write *)

Section SplitFacts.

Variables Severity Facility : Type.
Variable Severity_String : Severity -> string.
Variable Facility_String : Facility -> string.
Variable point_check :
  string -> list (string * string) -> list (string * string) -> Time -> option error.
Variable batch_check : BatchPointsConfig -> option error.

Local Abbreviation Write' := (Write Severity_String Facility_String point_check batch_check).
Local Abbreviation Write_request' :=
  (Write_request Severity_String Facility_String point_check).
Local Abbreviation point_of' := (point_of Severity_String Facility_String).
Local Abbreviation tags_of' := (tags_of Severity_String Facility_String).
Local Abbreviation point_accepted' :=
  (point_accepted Severity_String Facility_String point_check).
Local Abbreviation requested' := (requested Severity_String Facility_String).

(** The two halves of [flush], one after the other, are [flush]. *)
Lemma flush_split (s : InfluxDBDataStore) :
  flush batch_check s = (p <- flush_submit batch_check ;; flush_finish p) s.
Proof.
  unfold flush, flush_submit, flush_finish, flush_settle, defer, bind, Lock, get.
  destruct (mut s); [reflexivity|].
  cbv beta iota.
  destruct (NewBatchPoints batch_check _) as [bp|err].
  - destruct (0 <? len (points (set_mut true s))); reflexivity.
  - reflexivity.
Qed.

(** The two halves of the flush-request case are that case. *)
Lemma serve_split (s : InfluxDBDataStore) :
  doWork_case batch_check FlushNowCh s
  = (p <- serve_begin batch_check ;; serve_end p) s.
Proof.
  unfold doWork_case, serve_begin, serve_end, bind.
  destruct (recv_flushNow s) as [v s1|s1|m s1]; try reflexivity.
  destruct (Unlock s1) as [u s2|s2|m s2]; try reflexivity.
  rewrite flush_split. unfold bind.
  destruct (flush_submit batch_check s2) as [p s3|s3|m s3]; reflexivity.
Qed.

(** The two halves of [Write], with the worker's turns between them, are
    [Write]. *)
Lemma Write_split now w logMsg (s : InfluxDBDataStore) :
  Write' now w logMsg s
  = (r <- Write_request' now logMsg ;;
     match r with
     | Some r => ret r
     | None => worker_runs batch_check w ;;; Write_resume
     end) s.
Proof.
  unfold Write, Write_request, Write_resume, defer, bind.
  destruct (Lock s) as [u s1|s1|m s1]; try reflexivity.
  destruct (NewPoint point_check _ _ _ _) as [pt|err].
  - unfold modify, get, ret.
    destruct (highWaterMark <=? _).
    + destruct (send_flushNow 1 _) as [u1 s2|s2|m s2]; try reflexivity.
      destruct (worker_runs batch_check w s2) as [u2 s3|s3|m s3]; reflexivity.
    + destruct (Unlock _); reflexivity.
  - unfold ret. destruct (Unlock s1); reflexivity.
Qed.

Lemma Write_request_at_mark now logMsg (s : InfluxDBDataStore) :
  mut s = false -> point_accepted' now logMsg ->
  highWaterMark <= len (points s) + 1 ->
  len (flushNow s) < chanCap ->
  Write_request' now logMsg s = Ret None (requested' now logMsg s).
Proof.
  intros Hm Hc Hl Hq. unfold Write_request, bind, Lock, NewPoint. rewrite Hm.
  rewrite stamp_of_eq. fold (tags_of' logMsg). fold (fields_of logMsg).
  rewrite Hc. unfold bind, ret, modify, get. simpl.
  fold (point_of' now logMsg).
  replace (highWaterMark <=? len (points s ++ [point_of' now logMsg])) with true.
  2:{ symmetry. apply Z.leb_le. rewrite len_app. unfold len at 2. simpl. lia. }
  unfold send_flushNow. simpl.
  replace (len (flushNow s) <? chanCap) with true
    by (symmetry; apply Z.ltb_lt; exact Hq).
  reflexivity.
Qed.

(** The worker takes a request and is inside [con.Write], the mutex taken
    by its flush. *)
Lemma serve_begin_inflight (s : InfluxDBDataStore) (v : Z) (q : list Z) :
  mut s = true -> flushNow s = v :: q ->
  batch_check (mkBatchPointsConfig (Database (cfg s)) "ns") = None ->
  points s <> [] ->
  serve_begin batch_check s = Ret (InFlight (batch_of s)) (set_flushNow q s).
Proof.
  intros Hm Hq Hb Hp.
  destruct s as [cf cl m ps cx cd qt fn fd lg]. simpl in Hm, Hq, Hb, Hp.
  subst m fn.
  unfold serve_begin, flush_submit, bind, recv_flushNow, Unlock, Lock, get,
    NewBatchPoints.
  simpl. rewrite Hb. destruct ps as [|p ps]; [contradiction|].
  rewrite len_pos_cons. unfold ret, batch_of. simpl.
  rewrite fold_AddPoint. reflexivity.
Qed.

Lemma Write_resume_timeout (s : InfluxDBDataStore) :
  mut s = true -> flushed s = [] ->
  Write_resume s
  = Ret (Some (Errorf "timed out flushing logs")) (set_mut false s).
Proof.
  intros Hm Hd. unfold Write_resume, defer, bind, await_flushed, ret, Unlock.
  rewrite Hd, Hm. reflexivity.
Qed.

Lemma Write_resume_acked (s : InfluxDBDataStore) (a : Z) (rest : list Z) :
  mut s = true -> flushed s = a :: rest ->
  Write_resume s = Ret None (set_mut false (set_flushed rest s)).
Proof.
  intros Hm Hd. unfold Write_resume, defer, bind, await_flushed, ret, Unlock.
  rewrite Hd. simpl. rewrite Hm. reflexivity.
Qed.

(** [con.Write] returns, the batch accepted: the worker empties the
    buffer, whatever it holds by then, releases the mutex, takes it again
    and acknowledges. *)
Lemma serve_end_accepted (bp : BatchPoints) (s : InfluxDBDataStore) :
  mut s = true -> accepts_next (con s) -> len (flushed s) < chanCap ->
  serve_end (InFlight bp) s
  = Ret false
        (set_flushed (flushed s ++ [1])
           (set_points [] (set_con (fst (Client_Write (con s) bp)) s)))
  /\ snd (Client_Write (con s) bp) = None.
Proof.
  intros Hm Ha Hd.
  assert (Hs : snd (Client_Write (con s) bp) = None).
  { unfold Client_Write. destruct Ha as [Ha|[rest Ha]]; rewrite Ha; reflexivity. }
  split; [|exact Hs].
  destruct s as [cf cl m ps cx cd qt fn fd lg]. simpl in Hm, Hd, Hs. subst m.
  unfold serve_end, flush_finish, flush_settle, defer, bind, con_Write. simpl.
  destruct (Client_Write cl bp) as [c r]. simpl in Hs. subst r.
  unfold modify, ret, Unlock, log_flush_failure, Lock, send_flushed. simpl.
  replace (len fd <? chanCap) with true by (symmetry; apply Z.ltb_lt; exact Hd).
  reflexivity.
Qed.

(** [con.Write] returns while no call of [Write] holds the mutex that the
    timed-out call released: the deferred [Unlock] of [flush] finds the
    mutex unlocked and the process dies, the batch submitted. *)
Lemma flush_settle_unlocked (bp : BatchPoints) (s : InfluxDBDataStore) :
  mut s = false ->
  exists s', flush_settle bp s = Panic "sync: unlock of unlocked mutex" s'
             /\ submitted (con s') = submitted (con s) ++ [bp].
Proof.
  intros Hm. unfold flush_settle, defer, bind, con_Write.
  pose proof (Client_Write_submitted (con s) bp) as Hs.
  destruct (Client_Write (con s) bp) as [c [err|]]; simpl in Hs;
    unfold ret, modify, Unlock; simpl; rewrite Hm;
    eexists; (split; [reflexivity|exact Hs]).
Qed.

End SplitFacts.

(** * The datastore against its specification *)

(** ** Rotate *)

(** C9. [Rotate(olderThan)] does nothing, whatever its argument: it returns
    nil and the datastore (buffer, connection, mutex, channels, log) is
    exactly what it was. *)
Theorem Rotate_is_noop (olderThan : Time) (s : InfluxDBDataStore) :
  Rotate olderThan s = Ret None s.
Proof. reflexivity. Qed.

(** ** The query string *)

Lemma prepareQuery_unfold (i : influxDBReader) :
  qpBinaryName (params i) <> "" ->
  prepareQuery i =
  inl (("select time,severity,message from " ++ qpBinaryName (params i))
       ++ (if Time_Equal (qpStartDate (params i)) undefinedDate then
             if Time_Equal (qpEndDate (params i)) undefinedDate then
               if (qpHostname (params i) =? "")%string then ""
               else " where " ++ ("hostname='" ++ qpHostname (params i) ++ "'")
             else
               if (qpHostname (params i) =? "")%string then
                 " where " ++ ("time <= " ++ fmt_d (UnixNano (qpEndDate (params i))))
               else
                 " where " ++ ("time <= " ++ fmt_d (UnixNano (qpEndDate (params i))))
                 ++ " and " ++ ("hostname='" ++ qpHostname (params i) ++ "'")
           else
             if (qpHostname (params i) =? "")%string then
               " where " ++ ("time >= " ++ fmt_d (UnixNano (qpStartDate (params i))))
             else
               " where " ++ ("time >= " ++ fmt_d (UnixNano (qpStartDate (params i))))
               ++ " and " ++ ("hostname='" ++ qpHostname (params i) ++ "'")))%string.
Proof.
  intros Hn. apply string_eqb_empty_neq in Hn. unfold prepareQuery. rewrite Hn.
  destruct (Time_Equal (qpStartDate (params i)) undefinedDate);
    destruct (Time_Equal (qpEndDate (params i)) undefinedDate);
    destruct (qpHostname (params i) =? "")%string; simpl;
    rewrite ?string_app_nil_r, ?string_app_assoc; reflexivity.
Qed.

(** C6. With a non-empty [BinaryName] the query is exactly
    [select time,severity,message from <BinaryName>], followed by a
    where-clause only when a filter is set.  The clause holds at most one
    time bound, [time >= <start_ns>] when [StartDate] is set and otherwise
    [time <= <end_ns>] when [EndDate] is set, and the conjunct
    [hostname='<host>'] when [Hostname] is non-empty; a zero date adds no
    bound on its side. *)
Theorem prepareQuery_shape (i : influxDBReader) :
  qpBinaryName (params i) <> "" ->
  let p := params i in
  let base := ("select time,severity,message from " ++ qpBinaryName p)%string in
  let from_start := ("time >= " ++ fmt_d (UnixNano (qpStartDate p)))%string in
  let until_end := ("time <= " ++ fmt_d (UnixNano (qpEndDate p)))%string in
  let host := ("hostname='" ++ qpHostname p ++ "'")%string in
  exists q, prepareQuery i = inl q /\
    (qpStartDate p = undefinedDate -> qpEndDate p = undefinedDate ->
     qpHostname p = "" -> q = base)
    /\ (qpStartDate p <> undefinedDate -> qpHostname p = "" ->
        q = (base ++ " where " ++ from_start)%string)
    /\ (qpStartDate p <> undefinedDate -> qpHostname p <> "" ->
        q = (base ++ " where " ++ from_start ++ " and " ++ host)%string)
    /\ (qpStartDate p = undefinedDate -> qpEndDate p <> undefinedDate ->
        qpHostname p = "" ->
        q = (base ++ " where " ++ until_end)%string)
    /\ (qpStartDate p = undefinedDate -> qpEndDate p <> undefinedDate ->
        qpHostname p <> "" ->
        q = (base ++ " where " ++ until_end ++ " and " ++ host)%string)
    /\ (qpStartDate p = undefinedDate -> qpEndDate p = undefinedDate ->
        qpHostname p <> "" ->
        q = (base ++ " where " ++ host)%string).
Proof.
  intros Hn p base from_start until_end host.
  eexists. split; [apply prepareQuery_unfold; exact Hn|].
  fold p. fold base. fold from_start. fold until_end. fold host.
  repeat split; intros;
    repeat match goal with
           | H : _ = undefinedDate |- _ =>
               apply Time_Equal_eq in H; rewrite H; clear H
           | H : _ <> undefinedDate |- _ =>
               apply Time_Equal_neq in H; rewrite H; clear H
           | H : qpHostname p = "" |- _ =>
               apply String.eqb_eq in H; rewrite H; clear H
           | H : qpHostname p <> "" |- _ =>
               apply String.eqb_neq in H; rewrite H; clear H
           end;
    rewrite ?string_app_nil_r; try reflexivity.
  all: destruct (Time_Equal (qpEndDate p) undefinedDate); reflexivity.
Qed.

(** ** The reader *)

Lemma write_rows_messages (vals : list (list Value)) :
  forall buf,
    write_rows vals buf =
    match messages vals with
    | Some msgs => Some (buf ++ List.concat (map record_bytes msgs))
    | None => None
    end.
Proof.
  induction vals as [|val vals IH]; intros buf; simpl.
  - rewrite app_nil_r. reflexivity.
  - destruct (message_column val) as [m|]; [|reflexivity].
    rewrite IH. destruct (messages vals) as [msgs|]; [|reflexivity].
    simpl. rewrite app_assoc. reflexivity.
Qed.




Section ReaderFacts.

Variable batch_check : BatchPointsConfig -> option error.

(** A call on a reader whose stream is open: the next chunk is decoded and
    the datastore is not touched. *)
Lemma ReadNext_open (i : influxDBReader) (resp : ChunkedResponse)
      (s : InfluxDBDataStore) :
  result i = Some resp ->
  ReadNext batch_check i s =
  match resp with
  | [] => Ret (set_result [] i, inr EOF) s
  | inl msg :: _ =>
      Ret (set_result [inl msg] i, inr (Wrap (Errorf msg) "reading results")) s
  | inr res :: rest =>
      match messages (rows res) with
      | Some msgs =>
          Ret (set_result rest i, inl (List.concat (map record_bytes msgs))) s
      | None => Panic "interface conversion" s
      end
  end.
Proof.
  intros Hr. unfold ReadNext. rewrite Hr. unfold bind, ret.
  destruct resp as [|[msg|res] rest]; simpl; try reflexivity.
  rewrite write_rows_messages. destruct (messages (rows res)); reflexivity.
Qed.

(** The first call: a flush, then the query, executed once; from there on
    it is a call on the open stream. *)
Lemma ReadNext_first (i : influxDBReader) (q : string) (s : InfluxDBDataStore) :
  result i = None -> mut s = false -> prepareQuery i = inl q ->
  exists r s1,
    flush batch_check s = Ret r s1 /\
    let influxQ := mkQuery q (Database (cfg s)) "ns" 20000 in
    let s2 := set_con (fst (Client_QueryAsChunk (con s1) influxQ)) s1 in
    queries (con s2) = queries (con s) ++ [influxQ] /\
    ReadNext batch_check i s =
    match query_reply (con s1) influxQ with
    | inl msg => Ret (i, inr (Wrap (Errorf msg) "executing query")) s2
    | inr resp => ReadNext batch_check (set_result resp i) s2
    end.
Proof.
  intros Hr Hm Hq.
  destruct (flush_returns batch_check s Hm) as (r & s1 & Hf & Hm1).
  exists r, s1. split; [exact Hf|].
  pose proof (flush_queries batch_check s) as Hqs. rewrite Hf in Hqs.
  pose proof (flush_frame batch_check s) as (o & Ho & Hfr).
  rewrite Hf in Ho. subst o. destruct Hfr as (_ & _ & _ & _ & _ & Hcfg & _).
  cbv zeta. split.
  - unfold Client_QueryAsChunk.
    destruct (query_reply (con s1) _); simpl; rewrite Hqs; reflexivity.
  - unfold ReadNext at 1. rewrite Hr. unfold bind at 1. unfold bind at 1.
    rewrite Hf. rewrite Hq. unfold bind, get, con_QueryAsChunk, NewQuery. simpl.
    rewrite Hcfg. unfold Client_QueryAsChunk.
    destruct (query_reply (con s1) _) as [msg|resp]; simpl; [reflexivity|].
    unfold ReadNext. simpl. unfold bind, ret.
    destruct (NextResponse resp) as [resp' [res|err]]; simpl; reflexivity.
Qed.

(** A first call whose query cannot be built: after the flush the
    construction error is returned wrapped, and nothing else is done. *)
Lemma ReadNext_unprepared (i : influxDBReader) (err : error) (s : InfluxDBDataStore) :
  result i = None -> mut s = false -> prepareQuery i = inr err ->
  exists r s1,
    flush batch_check s = Ret r s1
    /\ ReadNext batch_check i s = Ret (i, inr (Wrap err "preparing query")) s1.
Proof.
  intros Hr Hm Hq.
  destruct (flush_returns batch_check s Hm) as (r & s1 & Hf & Hm1).
  exists r, s1. split; [exact Hf|].
  unfold ReadNext. rewrite Hr. unfold bind at 1. unfold bind at 1. rewrite Hf.
  rewrite Hq. reflexivity.
Qed.

(** C7. With an empty [BinaryName] the first [ReadNext()] fails before any
    query is executed: the error it returns says "missing application
    name", and the queries the backing store has seen are those it had
    seen before the call. *)
Theorem ReadNext_missing_application_name (p : QueryParams) (s : InfluxDBDataStore) :
  qpBinaryName p = "" -> mut s = false ->
  exists err s',
    ReadNext batch_check (ResultReader p) s = Ret (ResultReader p, inr err) s'
    /\ contains "missing application name" (Error err) = true
    /\ err <> EOF
    /\ queries (con s') = queries (con s).
Proof.
  intros Hn Hm.
  assert (Hq : prepareQuery (ResultReader p)
               = inr (Errorf "missing application name")).
  { unfold prepareQuery. simpl. rewrite Hn. reflexivity. }
  destruct (ReadNext_unprepared (ResultReader p) s eq_refl Hm Hq)
    as (r & s1 & Hf & Hrn).
  pose proof (flush_queries batch_check s) as Hqs. rewrite Hf in Hqs.
  exists (Wrap (Errorf "missing application name") "preparing query"), s1.
  split; [exact Hrn|]. split; [reflexivity|]. split; [discriminate|exact Hqs].
Qed.



End ReaderFacts.

(** ** The worker and its flushes *)

Section FlushClaims.

Variable batch_check : BatchPointsConfig -> option error.

(** A flush the backing store refuses. *)
Lemma flush_refused (s : InfluxDBDataStore) (msg : string)
      (rest : list (option string)) :
  mut s = false ->
  batch_check (mkBatchPointsConfig (Database (cfg s)) "ns") = None ->
  points s <> [] ->
  write_replies (con s) = Some msg :: rest ->
  flush batch_check s
  = Ret (Some (Wrap (Errorf msg) "writing log line to influx"))
        (set_con (mkClient rest (submitted (con s) ++ [batch_of s])
                           (accepted (con s)) (query_reply (con s))
                           (queries (con s))) s).
Proof.
  intros Hm Hb Hp Hw. rewrite (flush_unlocked batch_check s Hm), Hb.
  destruct (points s) as [|p ps]; [contradiction|].
  unfold Client_Write. rewrite Hw. reflexivity.
Qed.

(** A flush of a non-empty buffer submits exactly the buffer. *)
Lemma flush_submits (s : InfluxDBDataStore) :
  mut s = false ->
  batch_check (mkBatchPointsConfig (Database (cfg s)) "ns") = None ->
  points s <> [] ->
  exists r s', flush batch_check s = Ret r s'
    /\ submitted (con s') = submitted (con s) ++ [batch_of s].
Proof.
  intros Hm Hb Hp. rewrite (flush_unlocked batch_check s Hm), Hb.
  destruct (points s) as [|p ps] eqn:Hps; [contradiction|].
  pose proof (Client_Write_submitted (con s) (batch_of s)) as Hs.
  destruct (Client_Write (con s) (batch_of s)) as [c [err|]];
    eexists; eexists; (split; [reflexivity|exact Hs]).
Qed.

(** C1, as the code has it.  When the submission of a periodic flush
    fails, the error is logged and the buffer is left as it was: after
    [flush()] returns on the backend-error path the buffer still holds
    every attempted point, nothing was accepted, and the next flush
    submits the same points again. *)
Theorem periodic_flush_failure_keeps_buffer (s : InfluxDBDataStore)
        (msg : string) (rest : list (option string)) :
  mut s = false ->
  batch_check (mkBatchPointsConfig (Database (cfg s)) "ns") = None ->
  points s <> [] ->
  write_replies (con s) = Some msg :: rest ->
  exists s1,
    flush batch_check s
    = Ret (Some (Wrap (Errorf msg) "writing log line to influx")) s1
    /\ doWork_case batch_check TickerC s
       = Ret false
             (set_logged
                (logged s ++
                 [("failed to flush logs to backend: writing log line to influx: "
                   ++ msg)%string]) s1)
    /\ points s1 = points s
    /\ submitted (con s1) = submitted (con s) ++ [batch_of s]
    /\ accepted (con s1) = accepted (con s)
    /\ exists r s2,
         flush batch_check s1 = Ret r s2
         /\ submitted (con s2) = submitted (con s) ++ [batch_of s; batch_of s].
Proof.
  intros Hm Hb Hp Hw.
  pose proof (flush_refused s Hm Hb Hp Hw) as Hf.
  eexists. split; [exact Hf|].
  split; [simpl; unfold bind; rewrite Hf; reflexivity|].
  split; [reflexivity|]. split; [reflexivity|]. split; [reflexivity|].
  match goal with |- context [flush batch_check ?t] => set (s1 := t) end.
  destruct (flush_submits s1) as (r & s2 & Hf2 & Hs2); auto.
  exists r, s2. split; [exact Hf2|].
  rewrite Hs2. unfold s1, batch_of. simpl. rewrite <- app_assoc. reflexivity.
Qed.



(** A period that is not positive stops the worker in [time.NewTicker],
    before its deferred function is registered: [closed] stays open and
    [Wait()] stays suspended. *)
Lemma doWork_non_positive_period (evs : list Event) (s : InfluxDBDataStore) :
  ticker_period (cfg s) <= 0 ->
  doWork batch_check evs s = Panic "non-positive interval for NewTicker" s.
Proof.
  intros Hp. unfold doWork, bind, get, NewTicker.
  replace (ticker_period (cfg s) <=? 0) with true
    by (symmetry; apply Z.leb_le; exact Hp).
  reflexivity.
Qed.


End FlushClaims.

(** ** Write and the worker *)

Section ServedRequests.

Variable batch_check : BatchPointsConfig -> option error.

(** A worker that takes no turn leaves the datastore alone. *)
Lemma worker_runs_nil (s : InfluxDBDataStore) :
  worker_runs batch_check [] s = Ret tt s.
Proof. unfold worker_runs. destruct (closed s); reflexivity. Qed.

(** The worker serving one request while the caller waits: it takes the
    request, flushes, logs a failure, and acknowledges. *)
Lemma worker_serves (s : InfluxDBDataStore) (v : Z) (q : list Z) :
  mut s = true -> closed s = false -> flushNow s = v :: q ->
  len (flushed s) < chanCap ->
  exists r s3,
    flush batch_check (set_mut false (set_flushNow q s)) = Ret r s3
    /\ worker_runs batch_check [FlushNowCh] s
       = Ret tt (set_flushed (flushed s ++ [1])
                   (set_mut true (reached (log_flush_failure r s3)))).
Proof.
  intros Hm Hc Hq Hcap.
  destruct (flush_returns batch_check (set_mut false (set_flushNow q s)) eq_refl)
    as (r & s3 & Hf & Hm3).
  pose proof (flush_frame batch_check (set_mut false (set_flushNow q s)))
    as (o & Ho & Hfr).
  rewrite Hf in Ho. subst o. destruct Hfr as (_ & Hc3 & _ & Hd3 & _).
  simpl in Hc3, Hd3.
  exists r, s3. split; [exact Hf|].
  unfold worker_runs. rewrite Hc. unfold doWork_running, defer.
  unfold bind at 1. simpl doWork_loop. unfold bind at 1. unfold doWork_case.
  unfold bind at 1. unfold recv_flushNow. rewrite Hq.
  unfold bind at 1. unfold Unlock. simpl mut. rewrite Hm.
  unfold bind at 1. rewrite Hf.
  assert (Hlog : log_flush_failure r s3
                 = Ret tt (reached (log_flush_failure r s3))).
  { destruct r; reflexivity. }
  assert (Hlm : mut (reached (log_flush_failure r s3)) = false).
  { destruct r; simpl; exact Hm3. }
  assert (Hld : flushed (reached (log_flush_failure r s3)) = flushed s).
  { destruct r; simpl; exact Hd3. }
  unfold bind at 1. rewrite Hlog.
  unfold bind at 1. unfold Lock. rewrite Hlm.
  unfold bind at 1. unfold send_flushed. simpl flushed. rewrite Hld.
  replace (len (flushed s) <? chanCap) with true
    by (symmetry; apply Z.ltb_lt; exact Hcap).
  reflexivity.
Qed.

End ServedRequests.

Section WriteClaims.

Variables Severity Facility : Type.
Variable Severity_String : Severity -> string.
Variable Facility_String : Facility -> string.
Variable point_check :
  string -> list (string * string) -> list (string * string) -> Time -> option error.
Variable batch_check : BatchPointsConfig -> option error.

Local Abbreviation Write' :=
  (Write Severity_String Facility_String point_check batch_check).
Local Abbreviation point_of' := (point_of Severity_String Facility_String).
Local Abbreviation tags_of' := (tags_of Severity_String Facility_String).
Local Abbreviation point_accepted' :=
  (point_accepted Severity_String Facility_String point_check).
Local Abbreviation requested' := (requested Severity_String Facility_String).
Local Abbreviation Write_outlasted' :=
  (Write_outlasted Severity_String Facility_String point_check batch_check).
Local Abbreviation Write_overtaken' :=
  (Write_overtaken Severity_String Facility_String point_check).

(** The ways a call of [Write] can end. *)
Lemma Write_cases now w logMsg s :
  Write' now w logMsg s = Block s
  \/ (exists err, Write' now w logMsg s
                  = Ret (Some (Wrap err "adding new log message point")) s)
  \/ (len (points s) + 1 < highWaterMark
      /\ Write' now w logMsg s
         = Ret None (set_points (points s ++ [point_of' now logMsg]) s))
  \/ Write' now w logMsg s
     = Block (set_points (points s ++ [point_of' now logMsg]) (set_mut true s))
  \/ (exists s2,
        worker_runs batch_check w (requested' now logMsg s) = Ret tt s2
        /\ mut s2 = true
        /\ Write' now w logMsg s =
           match flushed s2 with
           | [] => Ret (Some (Errorf "timed out flushing logs")) (set_mut false s2)
           | _ :: rest => Ret None (set_mut false (set_flushed rest s2))
           end).
Proof.
  destruct (mut s) eqn:Hm.
  { left. apply Write_locked. exact Hm. }
  destruct (point_check (BinaryName logMsg) (tags_of' logMsg) (fields_of logMsg)
                        (stamp_of now logMsg)) as [err|] eqn:Hc.
  { right. left. exists err. apply Write_rejected; assumption. }
  destruct (Z_lt_le_dec (len (points s) + 1) highWaterMark) as [Hl|Hl].
  { right. right. left. split; [exact Hl|]. apply Write_below_mark; assumption. }
  destruct (Z_lt_le_dec (len (flushNow s)) chanCap) as [Hq|Hq].
  - right. right. right. right. apply Write_at_mark; assumption.
  - right. right. right. left. apply Write_jammed; assumption.
Qed.

(** A call at the mark whose request the worker takes: the 60 seconds
    pass while the worker is inside [con.Write], and the deferred
    [Unlock] of the call releases the mutex the flush had taken. *)
Lemma Write_outlasted_inflight now logMsg s :
  mut s = false -> point_accepted' now logMsg ->
  highWaterMark <= len (points s) + 1 ->
  flushNow s = [] -> flushed s = [] ->
  batch_check (mkBatchPointsConfig (Database (cfg s)) "ns") = None ->
  Write_outlasted' now logMsg s
  = Ret (Some (Errorf "timed out flushing logs"),
         Some (InFlight (mkBatchPoints (Database (cfg s)) "ns"
                                       (points s ++ [point_of' now logMsg]))))
        (set_points (points s ++ [point_of' now logMsg]) s).
Proof.
  intros Hm Hpt Hl Hfn Hfd Hb.
  assert (Hq : len (flushNow s) < chanCap) by (rewrite Hfn; reflexivity).
  unfold Write_outlasted. unfold bind at 1.
  rewrite (Write_request_at_mark s Hm Hpt Hl Hq).
  assert (Hreq : flushNow (requested' now logMsg s) = [1]).
  { simpl. rewrite Hfn. reflexivity. }
  assert (Hne : points (requested' now logMsg s) <> []).
  { simpl. intros Hnil. apply app_eq_nil in Hnil. destruct Hnil; discriminate. }
  unfold bind at 1.
  rewrite (serve_begin_inflight batch_check (requested' now logMsg s)
             eq_refl Hreq Hb Hne).
  unfold bind at 1.
  rewrite (Write_resume_timeout (set_flushNow [] (requested' now logMsg s))
             eq_refl Hfd).
  unfold ret, batch_of.
  destruct s as [cf cl m ps cx cd qt fn fd lg]. simpl in Hm, Hfn, Hfd.
  subst m fn fd. reflexivity.
Qed.

(** A call at the mark that is waiting when the [con.Write] of an earlier
    request returns, the batch accepted: the worker empties the buffer,
    the new point and whatever else came after the batch was built with
    it, and acknowledges; the call returns nil. *)
Lemma Write_overtaken_acked (bp : BatchPoints) now logMsg s :
  mut s = false -> point_accepted' now logMsg ->
  highWaterMark <= len (points s) + 1 ->
  len (flushNow s) < chanCap -> flushed s = [] ->
  accepts_next (con s) ->
  Write_overtaken' (InFlight bp) now logMsg s
  = Ret None
        (set_flushNow (flushNow s ++ [1])
           (set_points [] (set_con (fst (Client_Write (con s) bp)) s))).
Proof.
  intros Hm Hpt Hl Hq Hfd Ha.
  unfold Write_overtaken. unfold bind at 1.
  rewrite (Write_request_at_mark s Hm Hpt Hl Hq).
  assert (Hd : len (flushed (requested' now logMsg s)) < chanCap).
  { simpl. rewrite Hfd. reflexivity. }
  destruct (serve_end_accepted bp (requested' now logMsg s) eq_refl Ha Hd)
    as [He _].
  unfold bind at 1. rewrite He.
  match goal with |- Write_resume ?t = _ =>
    rewrite (@Write_resume_acked t 1 [] eq_refl)
  end.
  2:{ simpl. rewrite Hfd. reflexivity. }
  destruct s as [cf cl m ps cx cd qt fn fd lg]. simpl in Hm, Hfd.
  subst m fd. reflexivity.
Qed.

(** Three calls at the mark around one slow [con.Write].  The worker takes
    the request of the first and is inside [con.Write] when that call
    times out; the second call comes, finds the mutex free and times out
    as well, its point in the buffer; the third is waiting when
    [con.Write] returns.  The batch holds the buffer as the first call
    left it; the reset of the buffer drops the points of the second and
    the third call. *)
Lemma overtaken_writes_run na ma nb mb nc mc s :
  mut s = false -> flushNow s = [] -> flushed s = [] ->
  highWaterMark <= len (points s) + 1 ->
  point_accepted' na ma -> point_accepted' nb mb -> point_accepted' nc mc ->
  batch_check (mkBatchPointsConfig (Database (cfg s)) "ns") = None ->
  accepts_next (con s) ->
  let bp := mkBatchPoints (Database (cfg s)) "ns"
                          (points s ++ [point_of' na ma]) in
  let s1 := set_points (points s ++ [point_of' na ma]) s in
  let s2 := set_flushNow [1]
              (set_points ((points s ++ [point_of' na ma]) ++ [point_of' nb mb])
                          s) in
  let s3 := set_flushNow [1; 1]
              (set_points [] (set_con (fst (Client_Write (con s) bp)) s)) in
  Write_outlasted' na ma s
  = Ret (Some (Errorf "timed out flushing logs"), Some (InFlight bp)) s1
  /\ Write' nb [] mb s1 = Ret (Some (Errorf "timed out flushing logs")) s2
  /\ Write_overtaken' (InFlight bp) nc mc s2 = Ret None s3
  /\ submitted (con s3) = submitted (con s) ++ [bp]
  /\ accepted (con s3) = accepted (con s) ++ [bp].
Proof.
  intros Hm Hfn Hfd Hl Ha Hb Hc Hbc Hacc bp s1 s2 s3.
  assert (Hl1 : highWaterMark <= len (points s1) + 1).
  { unfold s1. simpl. rewrite len_app. unfold len at 2. simpl. lia. }
  assert (Hl2 : highWaterMark <= len (points s2) + 1).
  { unfold s2. simpl. rewrite !len_app. unfold len at 2 3. simpl. lia. }
  assert (Hq1 : len (flushNow s1) < chanCap).
  { unfold s1. simpl. rewrite Hfn. reflexivity. }
  split; [exact (Write_outlasted_inflight s Hm Ha Hl Hfn Hfd Hbc)|].
  split.
  { destruct (Write_at_mark batch_check [] s1 Hm Hb Hl1 Hq1)
      as (t & Hw & _ & E).
    rewrite worker_runs_nil in Hw. inversion Hw. subst t. rewrite E.
    simpl flushed. rewrite Hfd. unfold s2, s1.
    destruct s as [cf cl m ps cx cd qt fn fd lg]. simpl in Hm, Hfn, Hfd.
    subst m fn fd. reflexivity. }
  split.
  { rewrite (@Write_overtaken_acked bp nc mc s2 Hm Hc Hl2 eq_refl Hfd Hacc).
    reflexivity. }
  assert (Hs : snd (Client_Write (con s) bp) = None).
  { unfold Client_Write. destruct Hacc as [H|[rest H]]; rewrite H; reflexivity. }
  split.
  - exact (Client_Write_submitted (con s) bp).
  - change (accepted (con s3)) with (accepted (fst (Client_Write (con s) bp))).
    rewrite Client_Write_accepted, Hs. reflexivity.
Qed.

(** C5. The point [Write] stores carries, for a message of the legacy
    dialect, the wall-clock time [now] read during the call, which is not
    before any instant up to that reading (the instant of the call among
    them), and never the timestamp of the message: the call does the same
    whatever that timestamp is.  For a message of the other dialect the
    point carries the [Timestamp] of the message.  The stored point is
    read off the buffer of a call during which the worker takes no
    turn. *)
Theorem Write_timestamp now logMsg s :
  mut s = false -> point_accepted' now logMsg ->
  exists pt,
    points (reached (Write' now [] logMsg s)) = points s ++ [pt]
    /\ Name pt = BinaryName logMsg
    /\ Fields pt = [("message", Message logMsg)]
    /\ (RFC logMsg = RFC3164 ->
        PointTime pt = now
        /\ (forall t0, Time_le t0 now = true -> Time_le t0 (PointTime pt) = true)
        /\ (forall t w s0, Write' now w (with_Timestamp t logMsg) s0
                           = Write' now w logMsg s0))
    /\ (RFC logMsg <> RFC3164 -> PointTime pt = Timestamp logMsg).
Proof.
  intros Hm Hc. exists (point_of' now logMsg).
  split; [|split; [reflexivity|split; [reflexivity|split]]].
  - destruct (Z_lt_le_dec (len (points s) + 1) highWaterMark) as [Hl|Hl].
    { rewrite (Write_below_mark batch_check [] s Hm Hc Hl). reflexivity. }
    destruct (Z_lt_le_dec (len (flushNow s)) chanCap) as [Hq|Hq].
    + destruct (Write_at_mark batch_check [] s Hm Hc Hl Hq)
        as (s2 & Hw & _ & E).
      rewrite worker_runs_nil in Hw. inversion Hw. subst s2. rewrite E.
      destruct (flushed (requested' now logMsg s)); reflexivity.
    + rewrite (Write_jammed batch_check [] s Hm Hc Hl Hq). reflexivity.
  - intros Hr. simpl. unfold stamp_of. rewrite Hr.
    split; [reflexivity|]. split; [auto|].
    intros t w s0. unfold Write. simpl. rewrite Hr. reflexivity.
  - intros Hr. simpl. unfold stamp_of. destruct (RFC logMsg); congruence.
Qed.

(** The on-demand flush of a waiting call, served by the worker: one
    batch, the whole buffer with the new point, is submitted; the call is
    acknowledged and returns nil whatever the backing store answered. *)
Lemma Write_served now logMsg s :
  mut s = false -> closed s = false -> point_accepted' now logMsg ->
  batch_check (mkBatchPointsConfig (Database (cfg s)) "ns") = None ->
  highWaterMark <= len (points s) + 1 ->
  len (flushNow s) < chanCap -> len (flushed s) < chanCap ->
  let bp := mkBatchPoints (Database (cfg s)) "ns"
                          (points s ++ [point_of' now logMsg]) in
  exists s',
    Write' now [FlushNowCh] logMsg s = Ret None s'
    /\ con s' = fst (Client_Write (con s) bp)
    /\ match snd (Client_Write (con s) bp) with
       | Some err =>
           points s' = points s ++ [point_of' now logMsg]
           /\ logged s' =
              logged s ++
              [("failed to flush logs to backend: "
                ++ Error (Wrap err "writing log line to influx"))%string]
       | None => points s' = [] /\ logged s' = logged s
       end.
Proof.
  intros Hm Hc Hpt Hb Hl Hq Hd bp.
  destruct (Write_at_mark batch_check [FlushNowCh] s Hm Hpt Hl Hq)
    as (s2 & Hw & _ & E).
  assert (Hreq : exists v q, flushNow (requested' now logMsg s) = v :: q).
  { simpl. destruct (flushNow s); simpl; eauto. }
  destruct Hreq as (v & q & Hreq).
  destruct (worker_serves batch_check (requested' now logMsg s) eq_refl Hc
                          Hreq Hd) as (r & s3 & Hf & Hw').
  rewrite Hw in Hw'. inversion Hw'. subst s2. clear Hw'.
  rewrite (flush_unlocked batch_check
             (set_mut false (set_flushNow q (requested' now logMsg s)))
             eq_refl) in Hf.
  simpl in Hf. rewrite Hb in Hf.
  assert (Hne : exists p ps, points s ++ [point_of' now logMsg] = p :: ps).
  { destruct (points s); simpl; eauto. }
  destruct Hne as (p0 & ps0 & Hne). rewrite Hne in Hf.
  change (batch_of (set_mut false (set_flushNow q (requested' now logMsg s))))
    with bp in Hf.
  rewrite E. simpl flushed.
  destruct (flushed s ++ [1]) as [|a rest] eqn:Hfl.
  { apply app_eq_nil in Hfl. destruct Hfl; discriminate. }
  eexists. split; [reflexivity|].
  destruct (Client_Write (con s) bp) as [c [err|]]; inversion Hf; subst r s3;
    simpl; repeat split; try reflexivity; try exact Hne.
Qed.

(** C2, as the code has it.  When a [Write] crosses the mark and the
    flush it requested is refused by the backing store, the worker logs
    the error and acknowledges: the blocked call returns nil, the refused
    points staying in the buffer.  Whatever the worker does meanwhile, the
    only error such a call can return is the timeout. *)
Theorem Write_flush_failure_logged_not_returned now logMsg s msg rest :
  mut s = false -> closed s = false -> point_accepted' now logMsg ->
  batch_check (mkBatchPointsConfig (Database (cfg s)) "ns") = None ->
  highWaterMark <= len (points s) + 1 ->
  len (flushNow s) < chanCap -> len (flushed s) < chanCap ->
  write_replies (con s) = Some msg :: rest ->
  (exists s',
     Write' now [FlushNowCh] logMsg s = Ret None s'
     /\ points s' = points s ++ [point_of' now logMsg]
     /\ logged s' =
        logged s ++
        [("failed to flush logs to backend: writing log line to influx: "
          ++ msg)%string]
     /\ submitted (con s') =
        submitted (con s) ++
        [mkBatchPoints (Database (cfg s)) "ns" (points s ++ [point_of' now logMsg])]
     /\ accepted (con s') = accepted (con s))
  /\ (forall w e s', Write' now w logMsg s = Ret (Some e) s' ->
                     e = Errorf "timed out flushing logs").
Proof.
  intros Hm Hc Hpt Hb Hl Hq Hd Hw. split.
  - destruct (Write_served s Hm Hc Hpt Hb Hl Hq Hd) as (s' & E & Hcon & Hrest).
    exists s'. split; [exact E|].
    unfold Client_Write in Hcon, Hrest. rewrite Hw in Hcon, Hrest.
    simpl in Hcon, Hrest. destruct Hrest as [Hp Hlog].
    split; [exact Hp|]. split; [exact Hlog|].
    rewrite Hcon. split; reflexivity.
  - intros w e s' H.
    destruct (Write_at_mark batch_check w s Hm Hpt Hl Hq) as (s2 & _ & _ & E).
    rewrite E in H. destruct (flushed s2); inversion H. reflexivity.
Qed.

(** C4, as the code has it.  Provided the queue of flush requests
    (capacity 10) is not full, a [Write] whose append brings the buffer to
    20000 points queues exactly one request and waits, up to the 60
    seconds of [await_flushed], for the acknowledgment: without one it
    returns the error "timed out flushing logs", with one it returns nil;
    served by the worker, the request makes one flush, of the whole
    buffer.  When the worker takes no turn during the call, and when it
    takes the request and serves it to the end of its turn, every point
    buffered before the call and the new one are still buffered or were
    accepted by the backing store when the call ends.  A [Write] whose
    append leaves the buffer below the mark returns nil and queues
    nothing. *)
Theorem Write_high_water_mark now logMsg s :
  mut s = false -> point_accepted' now logMsg ->
  len (flushNow s) < chanCap ->
  (len (points s) + 1 < highWaterMark ->
   forall w, Write' now w logMsg s
             = Ret None (set_points (points s ++ [point_of' now logMsg]) s))
  /\ (highWaterMark <= len (points s) + 1 ->
      flushNow (requested' now logMsg s) = flushNow s ++ [1]
      /\ forall w, exists s2,
          worker_runs batch_check w (requested' now logMsg s) = Ret tt s2
          /\ (flushed s2 = [] ->
              Write' now w logMsg s
              = Ret (Some (Errorf "timed out flushing logs")) (set_mut false s2))
          /\ (forall a rest, flushed s2 = a :: rest ->
              Write' now w logMsg s
              = Ret None (set_mut false (set_flushed rest s2))))
  /\ (highWaterMark <= len (points s) + 1 ->
      closed s = false -> flushNow s = [] -> flushed s = [] ->
      batch_check (mkBatchPointsConfig (Database (cfg s)) "ns") = None ->
      exists s',
        Write' now [FlushNowCh] logMsg s = Ret None s'
        /\ submitted (con s') =
           submitted (con s) ++
           [mkBatchPoints (Database (cfg s)) "ns"
                          (points s ++ [point_of' now logMsg])]
        /\ flushNow s' = [] /\ flushed s' = [])
  /\ (forall p, In p (points s ++ [point_of' now logMsg]) ->
                kept p (reached (Write' now [] logMsg s))
                /\ kept p (reached (Write' now [FlushNowCh] logMsg s))).
Proof.
  intros Hm Hpt Hq.
  split; [intros Hl w; apply Write_below_mark; assumption|].
  split.
  { intros Hl. split; [reflexivity|]. intros w.
    destruct (Write_at_mark batch_check w s Hm Hpt Hl Hq) as (s2 & Hw & _ & E).
    exists s2. split; [exact Hw|]. split.
    - intros Hfd. rewrite E, Hfd. reflexivity.
    - intros a rest Hfd. rewrite E, Hfd. reflexivity. }
  split.
  { intros Hl Hc Hfn Hfd Hb.
    destruct (Write_at_mark batch_check [FlushNowCh] s Hm Hpt Hl Hq)
      as (s2 & Hw & _ & E).
    assert (Hreq : flushNow (requested' now logMsg s) = [1]).
    { simpl. rewrite Hfn. reflexivity. }
    assert (Hd : len (flushed (requested' now logMsg s)) < chanCap).
    { simpl. rewrite Hfd. reflexivity. }
    destruct (worker_serves batch_check (requested' now logMsg s) eq_refl Hc
                            Hreq Hd) as (r & s3 & Hf & Hw').
    rewrite Hw in Hw'. inversion Hw'. subst s2. clear Hw'.
    pose proof (flush_frame batch_check
                  (set_mut false (set_flushNow [] (requested' now logMsg s))))
      as (o & Ho & Hfr).
    rewrite Hf in Ho. subst o. destruct Hfr as (_ & _ & Hfn3 & _).
    destruct (flush_submits batch_check
                (set_mut false (set_flushNow [] (requested' now logMsg s))))
      as (r' & s3' & Hf' & Hs); auto.
    { simpl. intros Hnil. apply app_eq_nil in Hnil. destruct Hnil; discriminate. }
    rewrite Hf in Hf'. inversion Hf'. subst r' s3'. clear Hf'.
    rewrite E. simpl flushed. rewrite Hfd. simpl app.
    eexists. split; [reflexivity|].
    split; [|split; [|reflexivity]].
    - destruct r; simpl; exact Hs.
    - destruct r; simpl; exact Hfn3. }
  intros p Hin.
  assert (Hk0 : kept p (requested' now logMsg s)) by (left; exact Hin).
  assert (Hw : forall w, kept p (reached (Write' now w logMsg s))).
  { intros w.
    destruct (Z_lt_le_dec (len (points s) + 1) highWaterMark) as [Hl|Hl].
    - rewrite (Write_below_mark batch_check w s Hm Hpt Hl). left. exact Hin.
    - destruct (Write_at_mark batch_check w s Hm Hpt Hl Hq)
        as (s2 & Hw & _ & E).
      pose proof (@worker_runs_keeps batch_check p w _ Hk0) as Hk.
      rewrite Hw in Hk. simpl in Hk. rewrite E.
      destruct (flushed s2); exact Hk. }
  split; apply Hw.
Qed.

End WriteClaims.

(** * The model run on the sample instantiation *)

(** The sample stores are states the code reaches: 19999 calls of [Write]
    on a new datastore give [nearly_full_store]; once the context is
    cancelled and the worker has returned, ten more calls, each timing
    out, give [jammed_store]. *)
Lemma plain_writes_fill (n : nat) :
  forall s, mut s = false -> len (points s) + Z.of_nat n < highWaterMark ->
    plain_writes n s = Some (set_points (points s ++ repeat sample_point n) s).
Proof.
  induction n as [|n IH]; intros s Hm Hl.
  - simpl. rewrite app_nil_r. destruct s; reflexivity.
  - cbn [plain_writes]. unfold sample_Write.
    rewrite (@Write_below_mark Z Z fmt_d fmt_d sample_point_check
               sample_batch_check t_now [] legacy_msg s Hm eq_refl) by lia.
    change (point_of fmt_d fmt_d t_now legacy_msg) with sample_point.
    rewrite IH.
    + simpl. rewrite <- app_assoc. reflexivity.
    + exact Hm.
    + simpl points. rewrite len_app. unfold len at 2. simpl List.length. lia.
Qed.

Lemma nearly_full_store_reached :
  plain_writes (Z.to_nat 19999) (NewInfluxDBDatastore sample_cfg sample_client)
  = Some (nearly_full_store sample_client).
Proof.
  rewrite plain_writes_fill; [reflexivity|reflexivity|].
  rewrite Z2Nat.id by lia. reflexivity.
Qed.

Lemma timed_out_writes_jam (n : nat) :
  forall s, mut s = false -> flushed s = [] ->
    highWaterMark <= len (points s) + 1 ->
    len (flushNow s) + Z.of_nat n <= chanCap ->
    timed_out_writes n s
    = Some (set_flushNow (flushNow s ++ repeat 1 n)
              (set_points (points s ++ repeat sample_point n) s)).
Proof.
  induction n as [|n IH]; intros s Hm Hfd Hl Hq.
  - simpl. rewrite !app_nil_r. destruct s; reflexivity.
  - cbn [timed_out_writes]. unfold sample_Write.
    destruct (@Write_at_mark Z Z fmt_d fmt_d sample_point_check
                sample_batch_check t_now [] legacy_msg s Hm eq_refl Hl)
      as (s2 & Hw & _ & E); [lia|].
    rewrite worker_runs_nil in Hw. inversion Hw. subst s2. clear Hw.
    rewrite E. simpl flushed. rewrite Hfd.
    change (point_of fmt_d fmt_d t_now legacy_msg) with sample_point.
    rewrite IH.
    + simpl. rewrite <- !app_assoc. simpl. destruct s; simpl in *; subst.
      reflexivity.
    + reflexivity.
    + exact Hfd.
    + simpl points. rewrite len_app.
      match goal with |- context [len [?x]] => change (len [x]) with 1 end. lia.
    + simpl flushNow. rewrite len_app.
      match goal with |- context [len [?x]] => change (len [x]) with 1 end. lia.
Qed.

Lemma repeat_sample_split :
  repeat sample_point (Z.to_nat 20009)
  = repeat sample_point (Z.to_nat 19999) ++ repeat sample_point 10.
Proof. rewrite <- repeat_app. f_equal; lia. Qed.

Lemma nearly_full_len (c : Client) : len (points (nearly_full_store c)) = 19999.
Proof.
  change (points (nearly_full_store c)) with (repeat sample_point (Z.to_nat 19999)).
  unfold len. rewrite repeat_length. lia.
Qed.

Lemma worker_returns_on_cancellation :
  sample_doWork [CtxDone] (set_ctx true (nearly_full_store sample_client))
  = Ret tt (stopped (nearly_full_store sample_client)).
Proof. reflexivity. Qed.

Lemma jammed_store_reached :
  timed_out_writes 10 (stopped (nearly_full_store sample_client))
  = Some jammed_store.
Proof.
  rewrite timed_out_writes_jam.
  - unfold jammed_store. rewrite repeat_sample_split. reflexivity.
  - reflexivity.
  - reflexivity.
  - change (points (stopped (nearly_full_store sample_client)))
      with (points (nearly_full_store sample_client)).
    rewrite nearly_full_len. unfold highWaterMark. lia.
  - change (flushNow (stopped (nearly_full_store sample_client))) with (@nil Z).
    unfold chanCap, len. simpl. lia.
Qed.

Lemma twice_timed_out_len :
  highWaterMark <= len (points twice_timed_out_store) + 1.
Proof.
  change (points twice_timed_out_store)
    with ((repeat sample_point (Z.to_nat 19999) ++ [sample_point]) ++ [late_point]).
  rewrite !len_app. unfold len. rewrite repeat_length.
  unfold highWaterMark. simpl List.length. lia.
Qed.

Lemma jammed_len : len (points jammed_store) = 20009.
Proof.
  change (points jammed_store) with (repeat sample_point (Z.to_nat 20009)).
  unfold len. rewrite repeat_length. lia.
Qed.

(** ** Where the code departs from the specification *)

(** Against C1: a periodic flush the backing store refuses returns the
    error with the buffer as it was, not empty, and the next flush submits
    the same point a second time. *)
Lemma flush_failure_buffer_not_cleared :
  let s := one_point_store failing_client in
  let bp := mkBatchPoints "logs" "ns" [sample_point] in
  exists s1 s2,
    sample_flush s
    = Ret (Some (Wrap (Errorf "connection refused") "writing log line to influx")) s1
    /\ points s1 = [sample_point]
    /\ points s1 <> []
    /\ sample_flush s1 = Ret None s2
    /\ submitted (con s2) = [bp; bp].
Proof.
  eexists. eexists.
  split; [vm_compute; reflexivity|].
  split; [reflexivity|]. split; [discriminate|].
  split; [vm_compute; reflexivity|]. reflexivity.
Qed.

(** Against C2: the [Write] that brings the buffer to 20000 points while
    the backing store refuses the flush it requested returns nil; the
    failure is in the log only. *)
Lemma Write_returns_nil_on_flush_failure :
  exists s',
    sample_Write t_now [FlushNowCh] legacy_msg (nearly_full_store failing_client)
    = Ret None s'
    /\ logged s' =
       ["failed to flush logs to backend: writing log line to influx: connection refused"]
    /\ accepted (con s') = [].
Proof.
  destruct (@Write_served Z Z fmt_d fmt_d sample_point_check sample_batch_check
              t_now legacy_msg (nearly_full_store failing_client))
    as (s' & E & Hcon & Hrest);
    try reflexivity.
  exists s'. split; [exact E|].
  change (con (nearly_full_store failing_client)) with failing_client in Hcon, Hrest.
  cbv [Client_Write failing_client write_replies snd fst] in Hcon, Hrest.
  destruct Hrest as [_ Hlog]. split.
  - rewrite Hlog. reflexivity.
  - rewrite Hcon. reflexivity.
Qed.


(** The three calls at the mark around one slow [con.Write], on
    [nearly_full_store]: a legacy message, a message of the other
    dialect, a legacy message. *)
Lemma overtaken_sample_run :
  Write_outlasted fmt_d fmt_d sample_point_check sample_batch_check
                  t_now legacy_msg (nearly_full_store sample_client)
  = Ret (Some (Errorf "timed out flushing logs"), Some (InFlight inflight_batch))
        outlasted_store
  /\ sample_Write t_now [] modern_msg outlasted_store
     = Ret (Some (Errorf "timed out flushing logs")) twice_timed_out_store
  /\ Write_overtaken fmt_d fmt_d sample_point_check (InFlight inflight_batch)
                     t_now legacy_msg twice_timed_out_store
     = Ret None overtaken_store.
Proof.
  assert (Hl : highWaterMark <= len (points (nearly_full_store sample_client)) + 1).
  { rewrite nearly_full_len. unfold highWaterMark. lia. }
  destruct (@overtaken_writes_run Z Z fmt_d fmt_d sample_point_check
              sample_batch_check t_now legacy_msg t_now modern_msg
              t_now legacy_msg (nearly_full_store sample_client)
              eq_refl eq_refl eq_refl Hl eq_refl eq_refl eq_refl eq_refl
              (or_introl eq_refl))
    as (H1 & H2 & H3 & _).
  split; [exact H1|]. split; [exact H2|exact H3].
Qed.

(** The point of the second call is neither buffered nor accepted once
    the third has returned. *)
Lemma late_point_dropped : ~ kept late_point overtaken_store.
Proof.
  intros [H|(bp & Hbp & Hin)]; [exact H|].
  destruct Hbp as [<-|[]].
  change (bpPoints inflight_batch)
    with (repeat sample_point (Z.to_nat 19999) ++ [sample_point]) in Hin.
  apply in_app_or in Hin. destruct Hin as [Hin|[Hin|[]]].
  - apply repeat_spec in Hin. discriminate Hin.
  - discriminate Hin.
Qed.

(** Against C4.  First: 19999 points written, the context is cancelled
    and the worker returns; ten more calls time out, each leaving its
    request in the queue; the queue full, the next [Write] is suspended on
    its request: it waits for no acknowledgment and returns no timeout
    error.  Second: the worker is inside [con.Write] on the request of a
    first call when that call and a second one time out; [late_point],
    the point of the second, is in the buffer when a third call at the
    mark comes; during that call [con.Write] returns and the worker
    empties the buffer: the third call returns nil and [late_point],
    buffered before it, is neither buffered nor accepted. *)
Lemma Write_at_mark_blocked_or_overtaken :
  (plain_writes (Z.to_nat 19999) (NewInfluxDBDatastore sample_cfg sample_client)
   = Some (nearly_full_store sample_client)
   /\ sample_doWork [CtxDone] (set_ctx true (nearly_full_store sample_client))
      = Ret tt (stopped (nearly_full_store sample_client))
   /\ timed_out_writes 10 (stopped (nearly_full_store sample_client))
      = Some jammed_store
   /\ sample_Write t_now [] legacy_msg jammed_store
      = Block (set_points (points jammed_store ++ [sample_point])
                          (set_mut true jammed_store))
   /\ sample_Write t_now [FlushNowCh] legacy_msg jammed_store
      = Block (set_points (points jammed_store ++ [sample_point])
                          (set_mut true jammed_store)))
  /\ (Write_outlasted fmt_d fmt_d sample_point_check sample_batch_check
                      t_now legacy_msg (nearly_full_store sample_client)
      = Ret (Some (Errorf "timed out flushing logs"),
             Some (InFlight inflight_batch)) outlasted_store
      /\ sample_Write t_now [] modern_msg outlasted_store
         = Ret (Some (Errorf "timed out flushing logs")) twice_timed_out_store
      /\ In late_point (points twice_timed_out_store)
      /\ len (flushNow twice_timed_out_store) < chanCap
      /\ highWaterMark <= len (points twice_timed_out_store) + 1
      /\ Write_overtaken fmt_d fmt_d sample_point_check (InFlight inflight_batch)
                         t_now legacy_msg twice_timed_out_store
         = Ret None overtaken_store
      /\ ~ kept late_point overtaken_store).
Proof.
  split.
  - split; [exact nearly_full_store_reached|].
    split; [exact worker_returns_on_cancellation|].
    split; [exact jammed_store_reached|].
    split;
      apply (@Write_jammed Z Z fmt_d fmt_d sample_point_check sample_batch_check);
      try reflexivity;
      try (rewrite jammed_len; unfold highWaterMark; lia);
      try (vm_compute; discriminate).
  - destruct overtaken_sample_run as (H1 & H2 & H3).
    split; [exact H1|]. split; [exact H2|].
    split; [apply in_or_app; right; left; reflexivity|].
    split; [reflexivity|].
    split; [exact twice_timed_out_len|].
    split; [exact H3|exact late_point_dropped].
Qed.

(** C10, where the code departs from it.  On [nearly_full_store] the
    worker takes the request of a first call and is inside [con.Write]
    when that call times out.  A second call, of a message of the other
    dialect, appends [late_point] and returns the timeout error;
    [late_point] is in the buffer then.  A third call is waiting when
    [con.Write] returns: the worker empties the buffer and acknowledges.
    [late_point] is neither buffered nor accepted, and a later flush has
    nothing to submit. *)
Theorem Write_timeout_point_dropped_by_inflight_flush :
  Write_outlasted fmt_d fmt_d sample_point_check sample_batch_check
                  t_now legacy_msg (nearly_full_store sample_client)
  = Ret (Some (Errorf "timed out flushing logs"), Some (InFlight inflight_batch))
        outlasted_store
  /\ point_of fmt_d fmt_d t_now modern_msg = late_point
  /\ sample_Write t_now [] modern_msg outlasted_store
     = Ret (Some (Errorf "timed out flushing logs")) twice_timed_out_store
  /\ In late_point (points twice_timed_out_store)
  /\ Write_overtaken fmt_d fmt_d sample_point_check (InFlight inflight_batch)
                     t_now legacy_msg twice_timed_out_store
     = Ret None overtaken_store
  /\ points overtaken_store = []
  /\ accepted (con overtaken_store) = [inflight_batch]
  /\ ~ In late_point (bpPoints inflight_batch)
  /\ ~ kept late_point overtaken_store
  /\ sample_flush overtaken_store = Ret None overtaken_store.
Proof.
  destruct overtaken_sample_run as (H1 & H2 & H3).
  split; [exact H1|]. split; [reflexivity|]. split; [exact H2|].
  split; [apply in_or_app; right; left; reflexivity|].
  split; [exact H3|]. split; [reflexivity|]. split; [reflexivity|].
  split.
  { intros Hin. apply late_point_dropped. right.
    exists inflight_batch. split; [left; reflexivity|exact Hin]. }
  split; [exact late_point_dropped|reflexivity].
Qed.


(** ** The theorems at work on the sample instantiation *)

(** The worker takes no turn while the call waits: the call times out. *)
Lemma Write_times_out_unattended :
  sample_Write t_now [] legacy_msg (nearly_full_store sample_client)
  = Ret (Some (Errorf "timed out flushing logs")) timed_out_store.
Proof. reflexivity. Qed.

Lemma periodic_flush_failure_keeps_buffer_witness :
  let s := one_point_store failing_client in
  (mut s = false
   /\ sample_batch_check (mkBatchPointsConfig (Database (cfg s)) "ns") = None
   /\ points s <> []
   /\ write_replies (con s) = [Some "connection refused"])
  /\ exists s1,
       flush sample_batch_check s
       = Ret (Some (Wrap (Errorf "connection refused") "writing log line to influx")) s1
       /\ points s1 = points s.
Proof.
  intros s.
  assert (H1 : mut s = false) by reflexivity.
  assert (H2 : sample_batch_check (mkBatchPointsConfig (Database (cfg s)) "ns")
               = None) by reflexivity.
  assert (H3 : points s <> []) by discriminate.
  assert (H4 : write_replies (con s) = [Some "connection refused"]) by reflexivity.
  split; [repeat split; assumption|].
  destruct (@periodic_flush_failure_keeps_buffer sample_batch_check s
              "connection refused" [] H1 H2 H3 H4) as (s1 & Hf & _ & Hp & _).
  exists s1. split; assumption.
Defined.


Lemma Write_flush_failure_logged_not_returned_witness :
  let s := nearly_full_store failing_client in
  (mut s = false /\ closed s = false
   /\ point_accepted fmt_d fmt_d sample_point_check t_now legacy_msg
   /\ sample_batch_check (mkBatchPointsConfig (Database (cfg s)) "ns") = None
   /\ highWaterMark <= len (points s) + 1
   /\ len (flushNow s) < chanCap /\ len (flushed s) < chanCap
   /\ write_replies (con s) = [Some "connection refused"])
  /\ forall w e s',
       sample_Write t_now w legacy_msg s = Ret (Some e) s' ->
       e = Errorf "timed out flushing logs".
Proof.
  intros s.
  assert (H1 : mut s = false) by reflexivity.
  assert (H2 : closed s = false) by reflexivity.
  assert (H3 : point_accepted fmt_d fmt_d sample_point_check t_now legacy_msg)
    by reflexivity.
  assert (H4 : sample_batch_check (mkBatchPointsConfig (Database (cfg s)) "ns")
               = None) by reflexivity.
  assert (H5 : highWaterMark <= len (points s) + 1).
  { unfold s. rewrite nearly_full_len. unfold highWaterMark. lia. }
  assert (H6 : len (flushNow s) < chanCap) by reflexivity.
  assert (H7 : len (flushed s) < chanCap) by reflexivity.
  assert (H8 : write_replies (con s) = [Some "connection refused"]) by reflexivity.
  split; [repeat split; assumption|].
  apply (@Write_flush_failure_logged_not_returned Z Z fmt_d fmt_d
           sample_point_check sample_batch_check t_now legacy_msg s
           "connection refused" [] H1 H2 H3 H4 H5 H6 H7 H8).
Defined.

Lemma Write_high_water_mark_witness :
  let s := nearly_full_store sample_client in
  (mut s = false
   /\ point_accepted fmt_d fmt_d sample_point_check t_now legacy_msg
   /\ len (flushNow s) < chanCap)
  /\ forall p,
       In p (points s ++ [point_of fmt_d fmt_d t_now legacy_msg]) ->
       kept p (reached (sample_Write t_now [] legacy_msg s))
       /\ kept p (reached (sample_Write t_now [FlushNowCh] legacy_msg s)).
Proof.
  intros s.
  assert (H1 : mut s = false) by reflexivity.
  assert (H2 : point_accepted fmt_d fmt_d sample_point_check t_now legacy_msg)
    by reflexivity.
  assert (H3 : len (flushNow s) < chanCap) by reflexivity.
  split; [repeat split; assumption|].
  apply (@Write_high_water_mark Z Z fmt_d fmt_d sample_point_check
           sample_batch_check t_now legacy_msg s H1 H2 H3).
Defined.

Lemma Write_timestamp_witness :
  let s := one_point_store sample_client in
  (mut s = false
   /\ point_accepted fmt_d fmt_d sample_point_check t_now legacy_msg)
  /\ exists pt,
       points (reached (sample_Write t_now [] legacy_msg s)) = points s ++ [pt]
       /\ PointTime pt = t_now.
Proof.
  intros s.
  assert (H1 : mut s = false) by reflexivity.
  assert (H2 : point_accepted fmt_d fmt_d sample_point_check t_now legacy_msg)
    by reflexivity.
  split; [split; assumption|].
  destruct (@Write_timestamp Z Z fmt_d fmt_d sample_point_check
              sample_batch_check t_now legacy_msg s H1 H2)
    as (pt & Hp & _ & _ & Hlegacy & _).
  exists pt. split; [exact Hp|]. apply Hlegacy. reflexivity.
Defined.

Lemma prepareQuery_shape_witness :
  qpBinaryName (params (ResultReader sample_params)) <> ""
  /\ prepareQuery (ResultReader sample_params)
     = inl "select time,severity,message from app where time >= 1559347200000000000 and hostname='h1'".
Proof.
  assert (H : qpBinaryName (params (ResultReader sample_params)) <> "")
    by discriminate.
  split; [exact H|].
  destruct (prepareQuery_shape (ResultReader sample_params) H)
    as (q & Hq & _ & _ & Hboth & _).
  rewrite Hq. f_equal. apply Hboth; discriminate.
Defined.

Lemma ReadNext_missing_application_name_witness :
  let s := one_point_store sample_client in
  (qpBinaryName nameless_params = "" /\ mut s = false)
  /\ exists err s',
       sample_ReadNext (ResultReader nameless_params) s
       = Ret (ResultReader nameless_params, inr err) s'
       /\ contains "missing application name" (Error err) = true
       /\ err <> EOF
       /\ queries (con s') = queries (con s).
Proof.
  intros s. split; [split; reflexivity|].
  apply (@ReadNext_missing_application_name sample_batch_check nameless_params s
           eq_refl eq_refl).
Defined.


(** * Further properties of the datastore *)

(** ** flush *)

Section FlushProperties.

Variable batch_check : BatchPointsConfig -> option error.

(** X1. A flush the backing store accepts submits one batch, the whole
    buffer in arrival order for the configured database with precision
    "ns", and leaves the buffer empty and the mutex free. *)
Theorem flush_accepted_submits_buffer_in_order (s : InfluxDBDataStore) :
  mut s = false ->
  batch_check (mkBatchPointsConfig (Database (cfg s)) "ns") = None ->
  points s <> [] ->
  accepts_next (con s) ->
  exists s',
    flush batch_check s = Ret None s'
    /\ points s' = []
    /\ mut s' = false
    /\ submitted (con s') =
       submitted (con s) ++ [mkBatchPoints (Database (cfg s)) "ns" (points s)]
    /\ accepted (con s') =
       accepted (con s) ++ [mkBatchPoints (Database (cfg s)) "ns" (points s)].
Proof.
  intros Hm Hb Hp Ha. rewrite (flush_unlocked batch_check s Hm), Hb.
  destruct (points s) as [|p ps] eqn:Hps; [contradiction|].
  unfold Client_Write, batch_of. rewrite Hps.
  destruct Ha as [Ha|[rest Ha]]; rewrite Ha; eexists;
    (split; [reflexivity|]); simpl; repeat split; auto.
Qed.

(** X2. A flush with nothing to submit, or whose batch cannot be built,
    does not reach the backing store: with an empty buffer it returns nil,
    with a refused batch configuration it returns that error wrapped
    (whatever the buffer holds), and the datastore is exactly as it
    was. *)
Theorem flush_without_submission (s : InfluxDBDataStore) :
  mut s = false ->
  (batch_check (mkBatchPointsConfig (Database (cfg s)) "ns") = None ->
   points s = [] -> flush batch_check s = Ret None s)
  /\ (forall err,
        batch_check (mkBatchPointsConfig (Database (cfg s)) "ns") = Some err ->
        flush batch_check s
        = Ret (Some (Wrap err "getting influx batch point")) s).
Proof.
  intros Hm. split.
  - intros Hb Hp. rewrite (flush_unlocked batch_check s Hm), Hb, Hp. reflexivity.
  - intros err Hb. rewrite (flush_unlocked batch_check s Hm), Hb. reflexivity.
Qed.

(** X3. Whatever cases the worker's [select] picks, in whatever order, no
    point is dropped: a point that is buffered or accepted before the
    worker runs is buffered or accepted where the worker returns, waits
    or panics. *)
Theorem worker_never_drops_points (evs : list Event) (p : Point)
        (s : InfluxDBDataStore) :
  kept p s -> kept p (reached (doWork batch_check evs s)).
Proof. intros Hk. exact (@doWork_keeps batch_check p evs s Hk). Qed.

(** [quit], once closed, stays closed through every turn of the worker. *)
Lemma doWork_case_quit (ev : Event) (s : InfluxDBDataStore) :
  quit (reached (doWork_case batch_check ev s)) = quit s
  /\ closed (reached (doWork_case batch_check ev s)) = closed s.
Proof.
  destruct ev; simpl; unfold bind, get.
  - destruct (ctx s); split; reflexivity.
  - pose proof (flush_frame batch_check s) as (o & Ho & Hfr). rewrite Ho.
    destruct o as [r s1|s1|msg s1]; [| |contradiction].
    + destruct Hfr as (_ & Hc & _ & _ & _ & _ & _ & Hq).
      destruct r; simpl; auto.
    + destruct Hfr as (_ & Hc & _ & _ & _ & _ & _ & Hq). simpl. auto.
  - unfold recv_flushNow. destruct (flushNow s) as [|v q]; [split; reflexivity|].
    unfold Unlock. simpl mut. destruct (mut s); [|split; reflexivity].
    pose proof (flush_frame batch_check (set_mut false (set_flushNow q s)))
      as (o & Ho & Hfr). rewrite Ho.
    destruct o as [r s1|s1|msg s1]; [| |contradiction].
    + destruct Hfr as (Hm1 & Hc & _ & _ & _ & _ & _ & Hq). simpl in Hm1, Hc, Hq.
      assert (Hlog : exists s2, log_flush_failure r s1 = Ret tt s2
                /\ mut s2 = false /\ closed s2 = closed s /\ quit s2 = quit s).
      { destruct r; simpl; unfold log_Errorf, modify; eexists;
          (split; [reflexivity|]); simpl; auto. }
      destruct Hlog as (s2 & Hlog & Hm2 & Hc2 & Hq2). rewrite Hlog.
      unfold Lock. rewrite Hm2. unfold send_flushed. simpl.
      destruct (len (flushed s2) <? chanCap); simpl; auto.
    + destruct Hfr as (_ & Hc & _ & _ & _ & _ & _ & Hq). simpl in *. auto.
  - destruct (quit s) eqn:E; simpl; rewrite ?E; split; reflexivity.
Qed.

Lemma doWork_loop_quit (evs : list Event) :
  forall s,
    quit (reached (doWork_loop batch_check evs s)) = quit s
    /\ closed (reached (doWork_loop batch_check evs s)) = closed s.
Proof.
  induction evs as [|ev evs IH]; intros s; simpl; [split; reflexivity|].
  unfold bind. pose proof (doWork_case_quit ev s) as [Hq Hc].
  destruct (doWork_case batch_check ev s) as [stop s1|s1|msg s1]; simpl in *.
  - destruct stop; simpl; [auto|].
    destruct (IH s1) as [Hq1 Hc1]. split; congruence.
  - auto.
  - auto.
Qed.

Lemma worker_runs_quit (evs : list Event) (s : InfluxDBDataStore) :
  quit (reached (worker_runs batch_check evs s)) = quit s.
Proof.
  unfold worker_runs. destruct (closed s) eqn:Hc; [reflexivity|].
  unfold doWork_running, defer, bind.
  pose proof (doWork_loop_quit evs s) as [Hq Hcl].
  destruct (doWork_loop batch_check evs s) as [u s1|s1|msg s1]; simpl in *; auto.
  unfold close_closed. rewrite Hcl, Hc. simpl. exact Hq.
Qed.


(** X5. [Stop()] cannot be called twice: after a [Stop] that returned,
    [quit] is closed, and a second [Stop] panics closing it again,
    whatever the worker does. *)
Theorem Stop_twice_panics (s s' : InfluxDBDataStore) (evs evs' : list Event)
        (r : option error) :
  Stop batch_check evs s = Ret r s' ->
  Stop batch_check evs' s' = Panic "close of closed channel" s'.
Proof.
  intros H.
  assert (Hq : quit s' = true).
  { unfold Stop, bind, close_quit in H.
    destruct (quit s) eqn:Hq0; [discriminate|].
    pose proof (worker_runs_quit evs (set_quit true s)) as Hw.
    destruct (worker_runs batch_check evs (set_quit true s)) as [u s1|s1|msg s1];
      try discriminate.
    simpl in Hw. unfold Wait in H.
    destruct (closed s1); [|discriminate].
    unfold ret in H. inversion H. subst s'. exact Hw. }
  unfold Stop, bind, close_quit. rewrite Hq. reflexivity.
Qed.

End FlushProperties.

(** ** Write *)

Section WriteProperties.

Variables Severity Facility : Type.
Variable Severity_String : Severity -> string.
Variable Facility_String : Facility -> string.
Variable point_check :
  string -> list (string * string) -> list (string * string) -> Time -> option error.
Variable batch_check : BatchPointsConfig -> option error.

Local Abbreviation Write' :=
  (Write Severity_String Facility_String point_check batch_check).
Local Abbreviation Writes' :=
  (Writes Severity_String Facility_String point_check batch_check).
Local Abbreviation point_of' := (point_of Severity_String Facility_String).
Local Abbreviation tags_of' := (tags_of Severity_String Facility_String).
Local Abbreviation point_accepted' :=
  (point_accepted Severity_String Facility_String point_check).
Local Abbreviation requested' := (requested Severity_String Facility_String).
Local Abbreviation Write_outlasted' :=
  (Write_outlasted Severity_String Facility_String point_check batch_check).
Local Abbreviation Write_overtaken' :=
  (Write_overtaken Severity_String Facility_String point_check).

(** X6. A [Write] that timed out while the worker took no turn leaves its
    request in the queue and the mutex free.  If the worker, in its loop,
    then takes a request while the mutex is still free, its
    [i.mut.Unlock()] finds the mutex unlocked and the process dies, the
    request taken. *)
Theorem stale_request_panics_worker now logMsg s s' (evs : list Event) :
  Write' now [] logMsg s = Ret (Some (Errorf "timed out flushing logs")) s' ->
  flushNow s' = flushNow s ++ [1]
  /\ mut s' = false
  /\ doWork_running batch_check (FlushNowCh :: evs) s'
     = Panic "sync: unlock of unlocked mutex"
             (set_flushNow (tl (flushNow s')) s').
Proof.
  intros H.
  destruct (Write_cases Severity_String Facility_String point_check batch_check
                        now [] logMsg s)
    as [E|[[err E]|[[_ E]|[E|(s2 & Hw & Hm2 & E)]]]];
    rewrite E in H; try discriminate.
  rewrite worker_runs_nil in Hw. inversion Hw. subst s2. clear Hw.
  simpl flushed in H.
  destruct (flushed s) as [|a rest] eqn:Hfd; [|discriminate].
  inversion H. subst s'. clear H.
  split; [reflexivity|]. split; [reflexivity|].
  unfold doWork_running, defer, bind. simpl.
  unfold bind, recv_flushNow. simpl.
  destruct (flushNow s) as [|v q]; reflexivity.
Qed.

Lemma kept_append (p x : Point) (s s' : InfluxDBDataStore) :
  points s' = points s ++ [x] -> con s' = con s -> kept p s -> kept p s'.
Proof.
  intros Hp Hc [Hk|Hk]; [left|right].
  - rewrite Hp. apply in_or_app. left. exact Hk.
  - rewrite Hc. exact Hk.
Qed.

(** X7. Points are dropped when calls of [Write] come while a flush is
    inside [con.Write].  Of three calls at the mark, the first times out
    with the worker inside [con.Write] on its request, and its deferred
    [Unlock] frees the mutex the flush had taken; the second takes the
    mutex, appends, and times out in turn, its point in the buffer; the
    third is waiting when [con.Write] returns.  The worker then empties
    the buffer and acknowledges: the third call returns nil, the backing
    store has the one batch built before the second call, and whatever is
    buffered or accepted at the end was so before the three calls or is
    the point of the first. *)
Theorem Write_during_inflight_flush_drops_points na ma nb mb nc mc s :
  mut s = false -> flushNow s = [] -> flushed s = [] ->
  highWaterMark <= len (points s) + 1 ->
  point_accepted' na ma -> point_accepted' nb mb -> point_accepted' nc mc ->
  batch_check (mkBatchPointsConfig (Database (cfg s)) "ns") = None ->
  accepts_next (con s) ->
  exists bp s1 s2 s3,
    Write_outlasted' na ma s
    = Ret (Some (Errorf "timed out flushing logs"), Some (InFlight bp)) s1
    /\ bpPoints bp = points s ++ [point_of' na ma]
    /\ Write' nb [] mb s1 = Ret (Some (Errorf "timed out flushing logs")) s2
    /\ In (point_of' nb mb) (points s2)
    /\ Write_overtaken' (InFlight bp) nc mc s2 = Ret None s3
    /\ points s3 = []
    /\ mut s3 = false
    /\ submitted (con s3) = submitted (con s) ++ [bp]
    /\ accepted (con s3) = accepted (con s) ++ [bp]
    /\ (forall p, kept p s3 -> kept p s \/ p = point_of' na ma).
Proof.
  intros Hm Hfn Hfd Hl Ha Hb Hc Hbc Hacc.
  destruct (@overtaken_writes_run Severity Facility Severity_String
              Facility_String point_check batch_check na ma nb mb nc mc s
              Hm Hfn Hfd Hl Ha Hb Hc Hbc Hacc)
    as (H1 & H2 & H3 & Hsub & Hac).
  eexists. eexists. eexists. eexists.
  split; [exact H1|]. split; [reflexivity|]. split; [exact H2|].
  split; [simpl; apply in_or_app; right; left; reflexivity|].
  split; [exact H3|]. split; [reflexivity|]. split; [exact Hm|].
  split; [exact Hsub|]. split; [exact Hac|].
  intros p [Hin|(bp' & Hbp & Hin)]; [contradiction|].
  rewrite Hac in Hbp. apply in_app_or in Hbp. destruct Hbp as [Hbp|[<-|[]]].
  - left. right. exists bp'. split; assumption.
  - simpl in Hin. apply in_app_or in Hin. destruct Hin as [Hin|[<-|[]]].
    + left. left. exact Hin.
    + right. reflexivity.
Qed.

(** X8. No return path of [flush] or of [Write] leaves the mutex held:
    whenever either returns, with an error or without, the mutex is
    free. *)
Theorem flush_and_Write_release_mutex now w logMsg s s' (r : option error) :
  (flush batch_check s = Ret r s' -> mut s' = false)
  /\ (Write' now w logMsg s = Ret r s' -> mut s' = false).
Proof.
  split; intros H.
  - destruct (mut s) eqn:Hm.
    + rewrite (flush_locked batch_check s Hm) in H. discriminate.
    + destruct (flush_returns batch_check s Hm) as (r1 & s1 & Hf & Hm1).
      rewrite Hf in H. inversion H. subst. exact Hm1.
  - destruct (mut s) eqn:Hm.
    + rewrite (Write_locked Severity_String Facility_String point_check
                            batch_check now w logMsg s Hm) in H.
      discriminate.
    + destruct (Write_cases Severity_String Facility_String point_check
                            batch_check now w logMsg s)
        as [E|[[err E]|[[_ E]|[E|(s2 & Hw & Hm2 & E)]]]];
        rewrite E in H; try discriminate.
      * inversion H. subst. exact Hm.
      * inversion H. subst. exact Hm.
      * destruct (flushed s2); inversion H; reflexivity.
Qed.

(** X9. When the client library refuses the point, [Write] returns that
    error wrapped and changes nothing: nothing is appended, and even with
    the buffer at or over the mark no flush is requested and the call does
    not wait. *)
Theorem Write_rejected_point_changes_nothing now w logMsg s err :
  mut s = false ->
  point_check (BinaryName logMsg) (tags_of' logMsg) (fields_of logMsg)
              (stamp_of now logMsg) = Some err ->
  Write' now w logMsg s
  = Ret (Some (Wrap err "adding new log message point")) s.
Proof. intros Hm Hc. apply Write_rejected; assumption. Qed.

Lemma Writes_below_mark (l : list (Time * LogMessage Severity Facility)) :
  forall s,
    mut s = false ->
    Forall (fun nm => point_accepted' (fst nm) (snd nm)) l ->
    len (points s) + len l < highWaterMark ->
    Writes' l s
    = Ret None
          (set_points
             (points s ++ map (fun nm => point_of' (fst nm) (snd nm)) l) s).
Proof.
  induction l as [|[now logMsg] l IH]; intros s Hm Hall Hl.
  - simpl. rewrite app_nil_r. destruct s; reflexivity.
  - inversion Hall as [|x l' Hx Hall']. subst. simpl in Hx.
    assert (Hl1 : len ((now, logMsg) :: l) = 1 + len l).
    { unfold len. simpl List.length. lia. }
    pose proof (len_app (points s) [point_of' now logMsg]) as Hl2.
    change (len [point_of' now logMsg]) with 1 in Hl2.
    unfold len in Hl, Hl1, Hl2.
    cbn [Writes]. unfold bind.
    rewrite (Write_below_mark batch_check [] s Hm Hx) by (unfold len; lia).
    rewrite IH.
    + simpl. rewrite <- app_assoc. reflexivity.
    + exact Hm.
    + exact Hall'.
    + simpl points. unfold len. lia.
Qed.

(** X10. Messages written one after the other, the buffer staying below
    the mark, are flushed as one batch in their order of arrival: after
    the writes and a flush the backing store accepts, the store has
    received one more batch, the points buffered before followed by the
    point of each message in turn, and the buffer is empty. *)
Theorem Writes_then_flush_in_arrival_order
        (l : list (Time * LogMessage Severity Facility)) (s : InfluxDBDataStore) :
  mut s = false ->
  Forall (fun nm => point_accepted' (fst nm) (snd nm)) l ->
  len (points s) + len l < highWaterMark ->
  l <> [] ->
  batch_check (mkBatchPointsConfig (Database (cfg s)) "ns") = None ->
  accepts_next (con s) ->
  exists s1 s2,
    Writes' l s = Ret None s1
    /\ flush batch_check s1 = Ret None s2
    /\ points s2 = []
    /\ accepted (con s2) =
       accepted (con s) ++
       [mkBatchPoints (Database (cfg s)) "ns"
          (points s ++ map (fun nm => point_of' (fst nm) (snd nm)) l)]
    /\ submitted (con s2) =
       submitted (con s) ++
       [mkBatchPoints (Database (cfg s)) "ns"
          (points s ++ map (fun nm => point_of' (fst nm) (snd nm)) l)].
Proof.
  intros Hm Hall Hl Hne Hb Ha.
  pose (s1 := set_points
                (points s ++ map (fun nm => point_of' (fst nm) (snd nm)) l) s).
  assert (HW : Writes' l s = Ret None s1)
    by (apply Writes_below_mark; assumption).
  assert (Hps : exists p ps, points s1 = p :: ps).
  { simpl. destruct (points s) as [|p ps]; simpl; [|eauto].
    destruct l; [contradiction|simpl; eauto]. }
  destruct Hps as (p & ps & Hps).
  pose proof (flush_unlocked batch_check s1 Hm) as Hf.
  simpl cfg in Hf. rewrite Hb, Hps in Hf.
  unfold Client_Write in Hf. simpl con in Hf.
  exists s1.
  destruct Ha as [Ha|[rest Ha]]; rewrite Ha in Hf;
    (eexists; split; [exact HW|]; split; [exact Hf|]);
    simpl; repeat split; reflexivity.
Qed.

End WriteProperties.

(** ** The reader *)

Lemma Client_Write_query_reply (c : Client) (bp : BatchPoints) :
  query_reply (fst (Client_Write c bp)) = query_reply c.
Proof.
  unfold Client_Write. destruct (write_replies c) as [|[msg|] rest]; reflexivity.
Qed.

Lemma Client_QueryAsChunk_query_reply (c : Client) (q : Query) :
  query_reply (fst (Client_QueryAsChunk c q)) = query_reply c.
Proof. unfold Client_QueryAsChunk. destruct (query_reply c q); reflexivity. Qed.

Lemma messages_none (vals : list (list Value)) (val : list Value) :
  In val vals -> message_column val = None -> messages vals = None.
Proof.
  induction vals as [|v vals IH]; intros Hin Hnone; [contradiction|].
  simpl. destruct Hin as [->|Hin].
  - rewrite Hnone. reflexivity.
  - rewrite (IH Hin Hnone). destruct (message_column v); reflexivity.
Qed.

Lemma short_row_has_no_message (val : list Value) :
  (List.length val < 3)%nat -> message_column val = None.
Proof.
  intros H. unfold message_column.
  destruct val as [|a [|b [|c tl]]]; simpl in *; try reflexivity; lia.
Qed.

Section ReaderProperties.

Variable batch_check : BatchPointsConfig -> option error.

Lemma flush_query_reply (s s1 : InfluxDBDataStore) (r : option error) :
  flush batch_check s = Ret r s1 ->
  query_reply (con s1) = query_reply (con s) /\ cfg s1 = cfg s /\ mut s1 = false.
Proof.
  intros H. destruct (mut s) eqn:Hm.
  - rewrite (flush_locked batch_check s Hm) in H. discriminate.
  - rewrite (flush_unlocked batch_check s Hm) in H.
    destruct (batch_check _); [inversion H; subst; auto|].
    destruct (points s); [inversion H; subst; auto|].
    pose proof (Client_Write_query_reply (con s) (batch_of s)) as Hq.
    destruct (Client_Write (con s) (batch_of s)) as [c [err|]];
      inversion H; subst; simpl in *; auto.
Qed.

(** X11. Once the stream is exhausted it stays exhausted: the call that
    meets the end of the results returns the sentinel, and so does every
    later call on the reader, in whatever state the datastore is then,
    without flushing and without querying again. *)
Theorem ReadNext_after_EOF_stays_EOF (i : influxDBReader) (s : InfluxDBDataStore) :
  result i = Some [] ->
  ReadNext batch_check i s = Ret (set_result [] i, inr EOF) s
  /\ forall t,
       ReadNext batch_check (set_result [] i) t
       = Ret (set_result [] i, inr EOF) t.
Proof.
  intros Hr. split.
  - exact (ReadNext_open batch_check i s Hr).
  - intros t. exact (ReadNext_open batch_check (set_result [] i) t eq_refl).
Qed.

(** X12. A query the backing store fails to execute leaves the reader
    unopened: the error is returned wrapped as "executing query", and the
    next call on the same reader flushes and executes the query again, so
    the store has then received it twice. *)
Theorem ReadNext_failed_query_is_retried (i : influxDBReader) (q msg : string)
        (s : InfluxDBDataStore) :
  result i = None -> mut s = false -> prepareQuery i = inl q ->
  query_reply (con s) (mkQuery q (Database (cfg s)) "ns" 20000) = inl msg ->
  exists s2 s3,
    ReadNext batch_check i s
    = Ret (i, inr (Wrap (Errorf msg) "executing query")) s2
    /\ ReadNext batch_check i s2
       = Ret (i, inr (Wrap (Errorf msg) "executing query")) s3
    /\ queries (con s3) =
       queries (con s) ++ [mkQuery q (Database (cfg s)) "ns" 20000;
                           mkQuery q (Database (cfg s)) "ns" 20000].
Proof.
  intros Hr Hm Hq Hrep.
  destruct (ReadNext_first batch_check i s Hr Hm Hq) as (r & s1 & Hf & H1).
  cbv zeta in H1. destruct H1 as [Hqs E].
  destruct (flush_query_reply s Hf) as (Hqr & Hcfg & Hm1).
  rewrite Hqr, Hrep in E.
  set (s2 := set_con (fst (Client_QueryAsChunk (con s1)
                             (mkQuery q (Database (cfg s)) "ns" 20000))) s1)
    in *.
  assert (Hm2 : mut s2 = false) by exact Hm1.
  assert (Hcfg2 : cfg s2 = cfg s) by exact Hcfg.
  assert (Hqr2 : query_reply (con s2) = query_reply (con s)).
  { unfold s2. simpl con. rewrite Client_QueryAsChunk_query_reply. exact Hqr. }
  destruct (ReadNext_first batch_check i s2 Hr Hm2 Hq) as (r' & s1' & Hf' & H2).
  cbv zeta in H2. destruct H2 as [Hqs' E'].
  destruct (flush_query_reply s2 Hf') as (Hqr' & Hcfg' & _).
  rewrite Hcfg2 in Hqs', E'. rewrite Hqr', Hqr2, Hrep in E'.
  exists s2. eexists. split; [exact E|]. split; [exact E'|].
  rewrite Hqs', Hqs, <- app_assoc. reflexivity.
Qed.

(** X13. The first call executes the query even when the flush it forces
    is refused by the backing store: that failure is neither returned nor
    logged, the points stay in the buffer, unaccepted, and the query runs
    without them. *)
Theorem ReadNext_query_runs_despite_refused_flush
        (i : influxDBReader) (q msg : string) (rest : list (option string))
        (s : InfluxDBDataStore) :
  result i = None -> mut s = false -> prepareQuery i = inl q ->
  batch_check (mkBatchPointsConfig (Database (cfg s)) "ns") = None ->
  points s <> [] ->
  write_replies (con s) = Some msg :: rest ->
  exists s2,
    points s2 = points s
    /\ accepted (con s2) = accepted (con s)
    /\ logged s2 = logged s
    /\ queries (con s2) = queries (con s) ++ [mkQuery q (Database (cfg s)) "ns" 20000]
    /\ ReadNext batch_check i s =
       match query_reply (con s) (mkQuery q (Database (cfg s)) "ns" 20000) with
       | inl m => Ret (i, inr (Wrap (Errorf m) "executing query")) s2
       | inr resp => ReadNext batch_check (set_result resp i) s2
       end.
Proof.
  intros Hr Hm Hq Hb Hp Hw.
  destruct (ReadNext_first batch_check i s Hr Hm Hq) as (r & s1 & Hf & H1).
  cbv zeta in H1. destruct H1 as [Hqs E].
  rewrite (flush_refused batch_check s Hm Hb Hp Hw) in Hf.
  inversion Hf. subst r s1. clear Hf.
  eexists. split; [|split; [|split; [|split; [exact Hqs|exact E]]]].
  - reflexivity.
  - unfold Client_QueryAsChunk. simpl.
    destruct (query_reply (con s) _); reflexivity.
  - reflexivity.
Qed.


(** X15. A row without a string in its third column stops the process:
    decoding a chunk that holds a row of fewer than three columns, or one
    whose third column is not a string, the call panics instead of
    returning. *)
Theorem ReadNext_malformed_row_panics
        (i : influxDBReader) (res : Response) (rest : ChunkedResponse)
        (val : list Value) (s : InfluxDBDataStore) :
  result i = Some (inr res :: rest) ->
  In val (rows res) ->
  (List.length val < 3)%nat
  \/ (exists v, nth_error val 2 = Some v /\ forall m, v <> VString m) ->
  exists msg, ReadNext batch_check i s = Panic msg s.
Proof.
  intros Hr Hin Hbad.
  assert (Hnone : message_column val = None).
  { destruct Hbad as [Hlen|(v & Hv & Hns)].
    - apply short_row_has_no_message. exact Hlen.
    - unfold message_column. rewrite Hv.
      destruct v as [m| |]; [exfalso; exact (Hns m eq_refl)| |]; reflexivity. }
  rewrite (ReadNext_open batch_check i s Hr).
  rewrite (messages_none (rows res) val Hin Hnone). eexists. reflexivity.
Qed.

Lemma con_QueryAsChunk_keeps (p : Point) (q : Query) :
  preserves (kept p) (con_QueryAsChunk q).
Proof.
  intros s Hk. unfold con_QueryAsChunk, Client_QueryAsChunk.
  destruct (query_reply (con s) q); simpl; exact Hk.
Qed.

(** X16. However a call of [ReadNext] ends, no point is dropped: a point
    buffered or accepted before the call is buffered or accepted after
    it. *)
Theorem ReadNext_never_drops_points (i : influxDBReader) (p : Point)
        (s : InfluxDBDataStore) :
  kept p s -> kept p (reached (ReadNext batch_check i s)).
Proof.
  revert s. change (preserves (kept p) (ReadNext batch_check i)).
  unfold ReadNext. apply preserves_bind.
  - destruct (result i) as [resp|]; [apply preserves_ret|].
    apply preserves_bind; [apply flush_keeps|]. intros _.
    destruct (prepareQuery i) as [q|err]; [|apply preserves_ret].
    apply preserves_bind; [apply preserves_get|]. intros d.
    apply preserves_bind; [apply con_QueryAsChunk_keeps|].
    intros [resp|err]; apply preserves_ret.
  - intros [resp|err]; [|apply preserves_ret].
    destruct (NextResponse resp) as [resp' [res|err]].
    + destruct (write_rows (rows res) []); [apply preserves_ret|].
      intros s Hk. exact Hk.
    + destruct (is_EOF err); apply preserves_ret.
Qed.

End ReaderProperties.

(** ** The query string *)

(** X17. Query construction fails in one case only: it returns an error,
    and then the error "missing application name", exactly when
    [BinaryName] is empty. *)
Theorem prepareQuery_fails_only_without_name (i : influxDBReader) :
  (qpBinaryName (params i) = "" ->
   prepareQuery i = inr (Errorf "missing application name"))
  /\ (forall err, prepareQuery i = inr err ->
        qpBinaryName (params i) = "" /\ err = Errorf "missing application name").
Proof.
  split.
  - intros Hn. unfold prepareQuery. rewrite Hn. reflexivity.
  - intros err H. unfold prepareQuery in H.
    destruct (qpBinaryName (params i) =? "")%string eqn:E; [|discriminate].
    apply String.eqb_eq in E. inversion H. auto.
Qed.

(** X18. The query depends on the parameters through [BinaryName],
    [Hostname], [StartDate] and, when [StartDate] is unset, [EndDate]
    only: the severity field never changes it, and neither does [EndDate]
    once [StartDate] is set, so that no query bounds time on both
    sides. *)
Theorem prepareQuery_dependencies (i j : influxDBReader) :
  qpBinaryName (params i) = qpBinaryName (params j) ->
  qpHostname (params i) = qpHostname (params j) ->
  qpStartDate (params i) = qpStartDate (params j) ->
  (qpStartDate (params i) = undefinedDate ->
   qpEndDate (params i) = qpEndDate (params j)) ->
  prepareQuery i = prepareQuery j.
Proof.
  intros Hn Hh Hs He. unfold prepareQuery. rewrite <- Hn, <- Hh, <- Hs.
  destruct (Time_Equal (qpStartDate (params i)) undefinedDate) eqn:E.
  - apply Time_Equal_eq in E. rewrite <- (He E). reflexivity.
  - simpl. reflexivity.
Qed.

(** ** List *)

(** The loop of [List] is the loop on [NextResponse]: end of the stream
    breaks, any other error returns, a response is gone through. *)
Lemma List_loop_NextResponse (resp : ChunkedResponse) (names : list string) :
  List_loop resp names =
  match NextResponse resp with
  | (_, inr err) =>
      if is_EOF err then ret (inl names)
      else ret (inr (Wrap err "fetching response"))
  | (rest, inl r) =>
      match append_names (rows r) names with
      | Some names' => List_loop rest names'
      | None => fun d => Panic "interface conversion" d
      end
  end.
Proof. destruct resp as [|[msg|r] rest]; reflexivity. Qed.

Lemma append_names_listable (vals : list (list Value)) :
  forall names,
    Forall listable vals ->
    append_names vals names = Some (names ++ flat_map row_names vals).
Proof.
  induction vals as [|val vals IH]; intros names Hall; simpl.
  - rewrite app_nil_r. reflexivity.
  - inversion Hall as [|x l Hx Hall']. subst.
    destruct Hx as [->|(n & tl & ->)].
    + simpl. apply IH. exact Hall'.
    + rewrite (proj2 (Z.eqb_neq _ _)).
      2:{ unfold len. simpl List.length. lia. }
      simpl. rewrite IH by exact Hall'. rewrite <- app_assoc. reflexivity.
Qed.

Lemma append_names_unlistable (vals : list (list Value)) :
  forall names,
    Exists (fun val => ~ listable val) vals ->
    append_names vals names = None.
Proof.
  induction vals as [|val vals IH]; intros names Hex; inversion Hex; subst; simpl.
  - destruct val as [|v tl].
    + exfalso. apply H0. left. reflexivity.
    + rewrite (proj2 (Z.eqb_neq _ _)).
      2:{ unfold len. simpl List.length. lia. }
      destruct v as [n| |]; simpl; try reflexivity.
      exfalso. apply H0. right. eauto.
  - destruct val as [|v tl]; [simpl; apply IH; assumption|].
    rewrite (proj2 (Z.eqb_neq _ _)).
    2:{ unfold len. simpl List.length. lia. }
    destruct v as [n| |]; simpl; try reflexivity. apply IH. assumption.
Qed.

Lemma List_loop_responses (rs : list Response) :
  forall names d,
    Forall listable (flat_map rows rs) ->
    List_loop (responses rs) names d
    = Ret (inl (names ++ flat_map row_names (flat_map rows rs))) d.
Proof.
  induction rs as [|r rs IH]; intros names d Hall; simpl.
  - rewrite app_nil_r. reflexivity.
  - apply Forall_app in Hall. destruct Hall as [Hr Hrs].
    rewrite (append_names_listable _ Hr). rewrite IH by exact Hrs.
    rewrite flat_map_app, app_assoc. reflexivity.
Qed.

Lemma List_loop_decoding_error (rs : list Response) (msg : string)
      (rest : ChunkedResponse) :
  forall names d,
    Forall listable (flat_map rows rs) ->
    List_loop (responses rs ++ inl msg :: rest) names d
    = Ret (inr (Wrap (Errorf msg) "fetching response")) d.
Proof.
  induction rs as [|r rs IH]; intros names d Hall; simpl; [reflexivity|].
  apply Forall_app in Hall. destruct Hall as [Hr Hrs].
  rewrite (append_names_listable _ Hr). apply IH. exact Hrs.
Qed.

Lemma List_loop_frame (resp : ChunkedResponse) :
  forall names d,
    reached (List_loop resp names d) = d
    /\ forall d', List_loop resp names d <> Block d'.
Proof.
  induction resp as [|[msg|r] rest IH]; intros names d; simpl.
  - split; [reflexivity|discriminate].
  - split; [reflexivity|discriminate].
  - destruct (append_names (rows r) names); [apply IH|].
    split; [reflexivity|discriminate].
Qed.

(** The datastore after [List] has sent its query. *)
Lemma List_unfold (s : InfluxDBDataStore) :
  List s =
  match query_reply (con s) (NewQuery "SHOW MEASUREMENTS" (Database (cfg s)) "ns") with
  | inl msg =>
      Ret (inr (Wrap (Errorf msg) "listing logs"))
          (set_con (fst (Client_QueryAsChunk (con s)
                           (NewQuery "SHOW MEASUREMENTS" (Database (cfg s)) "ns")))
                   s)
  | inr resp =>
      List_loop resp []
        (set_con (fst (Client_QueryAsChunk (con s)
                         (NewQuery "SHOW MEASUREMENTS" (Database (cfg s)) "ns")))
                 s)
  end.
Proof.
  unfold List, bind, get, con_QueryAsChunk, Client_QueryAsChunk.
  destruct (query_reply (con s) _); reflexivity.
Qed.

(** X19. When the stream decodes without failure and every row is empty
    or starts with a string, [List] returns the first column of the
    non-empty rows, in the order of the stream: chunk after chunk, row
    after row; empty rows are skipped. *)
Theorem List_names_in_order (s : InfluxDBDataStore) (rs : list Response) :
  query_reply (con s) (NewQuery "SHOW MEASUREMENTS" (Database (cfg s)) "ns")
  = inr (responses rs) ->
  Forall listable (flat_map rows rs) ->
  exists s',
    List s = Ret (inl (flat_map row_names (flat_map rows rs))) s'
    /\ queries (con s') =
       queries (con s) ++ [NewQuery "SHOW MEASUREMENTS" (Database (cfg s)) "ns"].
Proof.
  intros Hrep Hall. rewrite List_unfold, Hrep.
  rewrite (List_loop_responses rs [] _ Hall). eexists. split; [reflexivity|].
  unfold Client_QueryAsChunk. rewrite Hrep. reflexivity.
Qed.

(** X20. [List] returns no partial result: a query the backing store
    fails to execute is returned wrapped as "listing logs", and a stream
    whose decoding fails after some chunks is answered with that failure
    wrapped as "fetching response", the names read from the chunks before
    it being dropped. *)
Theorem List_errors (s : InfluxDBDataStore) :
  (forall msg,
     query_reply (con s) (NewQuery "SHOW MEASUREMENTS" (Database (cfg s)) "ns")
     = inl msg ->
     exists s', List s = Ret (inr (Wrap (Errorf msg) "listing logs")) s')
  /\ (forall rs msg,
        query_reply (con s) (NewQuery "SHOW MEASUREMENTS" (Database (cfg s)) "ns")
        = inr (responses rs ++ [inl msg]) ->
        Forall listable (flat_map rows rs) ->
        exists s', List s = Ret (inr (Wrap (Errorf msg) "fetching response")) s').
Proof.
  split.
  - intros msg Hrep. rewrite List_unfold, Hrep. eexists. reflexivity.
  - intros rs msg Hrep Hall. rewrite List_unfold, Hrep.
    rewrite (List_loop_decoding_error rs msg [] [] _ Hall).
    eexists. reflexivity.
Qed.

(** X21. [List] only queries: it takes no mutex, so it is never
    suspended, even while a writer holds the mutex; it does not flush, so
    the buffer, and with it the points not yet submitted, is as before;
    all it changes in the datastore is the one query it adds to those the
    backing store has received. *)
Theorem List_only_queries (s : InfluxDBDataStore) :
  (forall s', List s <> Block s')
  /\ reached (List s) =
     set_con (mkClient (write_replies (con s)) (submitted (con s))
                       (accepted (con s)) (query_reply (con s))
                       (queries (con s) ++
                        [NewQuery "SHOW MEASUREMENTS" (Database (cfg s)) "ns"]))
             s.
Proof.
  rewrite List_unfold.
  assert (Hc : fst (Client_QueryAsChunk (con s)
                      (NewQuery "SHOW MEASUREMENTS" (Database (cfg s)) "ns"))
               = mkClient (write_replies (con s)) (submitted (con s))
                          (accepted (con s)) (query_reply (con s))
                          (queries (con s) ++
                           [NewQuery "SHOW MEASUREMENTS" (Database (cfg s)) "ns"])).
  { unfold Client_QueryAsChunk. destruct (query_reply (con s) _); reflexivity. }
  rewrite Hc.
  destruct (query_reply (con s) _) as [msg|resp].
  - split; [discriminate|reflexivity].
  - destruct (List_loop_frame resp [] (set_con (mkClient (write_replies (con s)) (submitted (con s))
                          (accepted (con s)) (query_reply (con s))
                          (queries (con s) ++
                           [NewQuery "SHOW MEASUREMENTS" (Database (cfg s)) "ns"])) s))
      as [Hreach Hnb].
    split; [exact Hnb|exact Hreach].
Qed.

(** X22. A non-empty row whose first column is not a string stops the
    process: when the stream decodes without failure and holds such a row,
    [List] panics instead of returning. *)
Theorem List_malformed_row_panics (s : InfluxDBDataStore) (rs : list Response) :
  query_reply (con s) (NewQuery "SHOW MEASUREMENTS" (Database (cfg s)) "ns")
  = inr (responses rs) ->
  Exists (fun val => ~ listable val) (flat_map rows rs) ->
  exists msg s', List s = Panic msg s'.
Proof.
  intros Hrep Hex. rewrite List_unfold, Hrep.
  generalize (set_con (fst (Client_QueryAsChunk (con s)
                (NewQuery "SHOW MEASUREMENTS" (Database (cfg s)) "ns"))) s).
  generalize (@nil string).
  clear Hrep. induction rs as [|r rs IH]; intros names d; simpl in *.
  - inversion Hex.
  - apply Exists_app in Hex. 
    destruct (append_names (rows r) names) as [names'|] eqn:E.
    + destruct Hex as [Hex|Hex].
      * rewrite (@append_names_unlistable (rows r) names Hex) in E.
        discriminate.
      * apply IH. exact Hex.
    + eexists. eexists. reflexivity.
Qed.

(** ** The further properties at work on the sample instantiation *)

Lemma flush_accepted_submits_buffer_in_order_witness :
  let s := one_point_store sample_client in
  (mut s = false
   /\ sample_batch_check (mkBatchPointsConfig (Database (cfg s)) "ns") = None
   /\ points s <> [] /\ accepts_next (con s))
  /\ exists s',
       flush sample_batch_check s = Ret None s'
       /\ points s' = []
       /\ accepted (con s') = [mkBatchPoints "logs" "ns" [sample_point]].
Proof.
  intros s.
  assert (H1 : mut s = false) by reflexivity.
  assert (H2 : sample_batch_check (mkBatchPointsConfig (Database (cfg s)) "ns")
               = None) by reflexivity.
  assert (H3 : points s <> []) by discriminate.
  assert (H4 : accepts_next (con s)) by (left; reflexivity).
  split; [repeat split; assumption|].
  destruct (@flush_accepted_submits_buffer_in_order sample_batch_check s
              H1 H2 H3 H4) as (s' & Hf & Hp & _ & _ & Ha).
  exists s'. split; [exact Hf|]. split; [exact Hp|exact Ha].
Defined.

Lemma flush_without_submission_witness :
  let s := NewInfluxDBDatastore sample_cfg sample_client in
  mut s = false /\ points s = [] /\ flush sample_batch_check s = Ret None s.
Proof.
  intros s. split; [reflexivity|]. split; [reflexivity|].
  apply (proj1 (@flush_without_submission sample_batch_check s eq_refl));
    reflexivity.
Defined.

Lemma worker_never_drops_points_witness :
  let s := one_point_store sample_client in
  kept sample_point s
  /\ kept sample_point (reached (doWork sample_batch_check [TickerC; TickerC] s)).
Proof.
  intros s.
  assert (H : kept sample_point s) by (left; left; reflexivity).
  split; [exact H|].
  apply (@worker_never_drops_points sample_batch_check [TickerC; TickerC]
           sample_point s H).
Defined.


Lemma Stop_returns_once :
  Stop sample_batch_check [QuitCh] (one_point_store sample_client)
  = Ret None stopped_by_quit.
Proof. reflexivity. Qed.

Lemma Stop_twice_panics_witness :
  Stop sample_batch_check [QuitCh] (one_point_store sample_client)
  = Ret None stopped_by_quit
  /\ Stop sample_batch_check [] stopped_by_quit
     = Panic "close of closed channel" stopped_by_quit.
Proof.
  split; [exact Stop_returns_once|].
  apply (@Stop_twice_panics sample_batch_check (one_point_store sample_client)
           stopped_by_quit [QuitCh] [] None Stop_returns_once).
Defined.

Lemma stale_request_panics_worker_witness :
  sample_Write t_now [] legacy_msg (nearly_full_store sample_client)
  = Ret (Some (Errorf "timed out flushing logs")) timed_out_store
  /\ doWork_running sample_batch_check [FlushNowCh] timed_out_store
     = Panic "sync: unlock of unlocked mutex" (set_flushNow [] timed_out_store).
Proof.
  split; [exact Write_times_out_unattended|].
  destruct (@stale_request_panics_worker Z Z fmt_d fmt_d sample_point_check
              sample_batch_check t_now legacy_msg
              (nearly_full_store sample_client) timed_out_store []
              Write_times_out_unattended) as (_ & _ & H).
  exact H.
Defined.

Lemma Write_during_inflight_flush_drops_points_witness :
  let s := nearly_full_store sample_client in
  (mut s = false /\ flushNow s = [] /\ flushed s = []
   /\ highWaterMark <= len (points s) + 1
   /\ point_accepted fmt_d fmt_d sample_point_check t_now legacy_msg
   /\ point_accepted fmt_d fmt_d sample_point_check t_now modern_msg
   /\ sample_batch_check (mkBatchPointsConfig (Database (cfg s)) "ns") = None
   /\ accepts_next (con s))
  /\ exists bp s1 s2 s3,
       Write_outlasted fmt_d fmt_d sample_point_check sample_batch_check
                       t_now legacy_msg s
       = Ret (Some (Errorf "timed out flushing logs"), Some (InFlight bp)) s1
       /\ sample_Write t_now [] modern_msg s1
          = Ret (Some (Errorf "timed out flushing logs")) s2
       /\ In late_point (points s2)
       /\ Write_overtaken fmt_d fmt_d sample_point_check (InFlight bp)
                          t_now legacy_msg s2
          = Ret None s3
       /\ points s3 = []
       /\ accepted (con s3) = accepted (con s) ++ [bp].
Proof.
  intros s.
  assert (H1 : mut s = false) by reflexivity.
  assert (H2 : flushNow s = []) by reflexivity.
  assert (H3 : flushed s = []) by reflexivity.
  assert (H4 : highWaterMark <= len (points s) + 1).
  { unfold s. rewrite nearly_full_len. unfold highWaterMark. lia. }
  assert (H5 : point_accepted fmt_d fmt_d sample_point_check t_now legacy_msg)
    by reflexivity.
  assert (H6 : point_accepted fmt_d fmt_d sample_point_check t_now modern_msg)
    by reflexivity.
  assert (H7 : sample_batch_check (mkBatchPointsConfig (Database (cfg s)) "ns")
               = None) by reflexivity.
  assert (H8 : accepts_next (con s)) by (left; reflexivity).
  split; [repeat split; assumption|].
  destruct (@Write_during_inflight_flush_drops_points Z Z fmt_d fmt_d
              sample_point_check sample_batch_check
              t_now legacy_msg t_now modern_msg t_now legacy_msg s
              H1 H2 H3 H4 H5 H6 H5 H7 H8)
    as (bp & s1 & s2 & s3 & E1 & _ & E2 & Hin & E3 & Hp & _ & _ & Hac & _).
  exists bp, s1, s2, s3. repeat split; assumption.
Defined.

Lemma flush_returns_once :
  flush sample_batch_check (one_point_store sample_client)
  = Ret None
        (set_points []
           (set_con (mkClient [] [mkBatchPoints "logs" "ns" [sample_point]]
                              [mkBatchPoints "logs" "ns" [sample_point]]
                              (query_reply sample_client) [])
                    (one_point_store sample_client))).
Proof. reflexivity. Qed.

Lemma flush_and_Write_release_mutex_witness :
  exists s',
    flush sample_batch_check (one_point_store sample_client) = Ret None s'
    /\ mut s' = false.
Proof.
  eexists. split; [exact flush_returns_once|].
  apply (proj1 (@flush_and_Write_release_mutex Z Z fmt_d fmt_d sample_point_check
                  sample_batch_check t_now [] legacy_msg
                  (one_point_store sample_client) _ None)).
  exact flush_returns_once.
Defined.

Lemma Write_rejected_point_changes_nothing_witness :
  let s := nearly_full_store sample_client in
  mut s = false
  /\ Write fmt_d fmt_d refusing_point_check sample_batch_check
           t_now [FlushNowCh] legacy_msg s
     = Ret (Some (Wrap (Errorf "max key length exceeded")
                       "adding new log message point")) s.
Proof.
  intros s. split; [reflexivity|].
  apply (@Write_rejected_point_changes_nothing Z Z fmt_d fmt_d
           refusing_point_check sample_batch_check t_now [FlushNowCh]
           legacy_msg s (Errorf "max key length exceeded") eq_refl eq_refl).
Defined.

Lemma Writes_then_flush_in_arrival_order_witness :
  let s := NewInfluxDBDatastore sample_cfg sample_client in
  exists s1 s2,
    Writes fmt_d fmt_d sample_point_check sample_batch_check two_messages s
    = Ret None s1
    /\ flush sample_batch_check s1 = Ret None s2
    /\ accepted (con s2) =
       [mkBatchPoints "logs" "ns"
          [point_of fmt_d fmt_d t_now legacy_msg;
           point_of fmt_d fmt_d t_now modern_msg]].
Proof.
  intros s.
  assert (H1 : mut s = false) by reflexivity.
  assert (H2 : Forall (fun nm => point_accepted fmt_d fmt_d sample_point_check
                                   (fst nm) (snd nm)) two_messages).
  { repeat constructor. }
  assert (H3 : len (points s) + len two_messages < highWaterMark) by reflexivity.
  assert (H4 : two_messages <> []) by discriminate.
  assert (H5 : sample_batch_check (mkBatchPointsConfig (Database (cfg s)) "ns")
               = None) by reflexivity.
  assert (H6 : accepts_next (con s)) by (left; reflexivity).
  destruct (@Writes_then_flush_in_arrival_order Z Z fmt_d fmt_d
              sample_point_check sample_batch_check two_messages s
              H1 H2 H3 H4 H5 H6) as (s1 & s2 & HW & Hf & _ & Ha & _).
  exists s1, s2. split; [exact HW|]. split; [exact Hf|exact Ha].
Defined.

Lemma ReadNext_after_EOF_stays_EOF_witness :
  let i := set_result [] (ResultReader sample_params) in
  result i = Some []
  /\ sample_ReadNext i (one_point_store sample_client)
     = Ret (i, inr EOF) (one_point_store sample_client).
Proof.
  intros i. split; [reflexivity|].
  apply (proj1 (@ReadNext_after_EOF_stays_EOF sample_batch_check i
                  (one_point_store sample_client) eq_refl)).
Defined.

Lemma ReadNext_failed_query_is_retried_witness :
  let i := ResultReader sample_params in
  let s := NewInfluxDBDatastore sample_cfg unreachable_client in
  (result i = None /\ mut s = false /\ prepareQuery i = inl sample_query)
  /\ exists s2 s3,
       sample_ReadNext i s
       = Ret (i, inr (Wrap (Errorf "connection refused") "executing query")) s2
       /\ sample_ReadNext i s2
          = Ret (i, inr (Wrap (Errorf "connection refused") "executing query")) s3
       /\ queries (con s3) =
          [mkQuery sample_query "logs" "ns" 20000;
           mkQuery sample_query "logs" "ns" 20000].
Proof.
  intros i s. split; [repeat split; reflexivity|].
  apply (@ReadNext_failed_query_is_retried sample_batch_check i sample_query
           "connection refused" s eq_refl eq_refl eq_refl eq_refl).
Defined.

Lemma ReadNext_query_runs_despite_refused_flush_witness :
  let i := ResultReader sample_params in
  let s := one_point_store failing_client in
  (result i = None /\ mut s = false /\ prepareQuery i = inl sample_query
   /\ points s <> [] /\ write_replies (con s) = [Some "connection refused"])
  /\ exists s2,
       points s2 = [sample_point]
       /\ accepted (con s2) = []
       /\ logged s2 = []
       /\ queries (con s2) = [mkQuery sample_query "logs" "ns" 20000].
Proof.
  intros i s.
  assert (H3 : points s <> []) by discriminate.
  split; [repeat split; try reflexivity; exact H3|].
  destruct (@ReadNext_query_runs_despite_refused_flush sample_batch_check i
              sample_query "connection refused" [] s
              eq_refl eq_refl eq_refl eq_refl H3 eq_refl)
    as (s2 & Hp & Ha & Hl & Hq & _).
  exists s2. repeat split; assumption.
Defined.


Lemma ReadNext_malformed_row_panics_witness :
  result short_row_reader = Some [inr short_row_response]
  /\ exists msg,
       sample_ReadNext short_row_reader (one_point_store sample_client)
       = Panic msg (one_point_store sample_client).
Proof.
  split; [reflexivity|].
  apply (@ReadNext_malformed_row_panics sample_batch_check short_row_reader
           short_row_response []
           [VNumber 1559347200000000000; VString "INFO"]
           (one_point_store sample_client) eq_refl).
  - left. reflexivity.
  - left. simpl. lia.
Defined.

Lemma ReadNext_never_drops_points_witness :
  let s := one_point_store failing_client in
  kept sample_point s
  /\ kept sample_point
          (reached (sample_ReadNext (ResultReader sample_params) s)).
Proof.
  intros s.
  assert (H : kept sample_point s) by (left; left; reflexivity).
  split; [exact H|].
  apply (@ReadNext_never_drops_points sample_batch_check
           (ResultReader sample_params) sample_point s H).
Defined.

Lemma prepareQuery_fails_only_without_name_witness :
  qpBinaryName (params (ResultReader nameless_params)) = ""
  /\ prepareQuery (ResultReader nameless_params)
     = inr (Errorf "missing application name").
Proof.
  split; [reflexivity|].
  apply (proj1 (prepareQuery_fails_only_without_name
                  (ResultReader nameless_params))).
  reflexivity.
Defined.

Lemma prepareQuery_dependencies_witness :
  prepareQuery (ResultReader sample_params_until)
  = prepareQuery (ResultReader sample_params)
  /\ prepareQuery (ResultReader sample_params) = inl sample_query.
Proof.
  split; [|reflexivity].
  apply (prepareQuery_dependencies (ResultReader sample_params_until)
                                   (ResultReader sample_params));
    try reflexivity.
  intros H. discriminate H.
Defined.

Lemma List_names_in_order_witness :
  let s := NewInfluxDBDatastore sample_cfg catalog_client in
  Forall listable (flat_map rows [catalog_response])
  /\ exists s', List s = Ret (inl ["app"; "kernel"]) s'.
Proof.
  intros s.
  assert (H : Forall listable (flat_map rows [catalog_response])).
  { simpl. apply Forall_cons; [right; eauto|].
    apply Forall_cons; [left; reflexivity|].
    apply Forall_cons; [right; eauto|]. apply Forall_nil. }
  split; [exact H|].
  destruct (@List_names_in_order s [catalog_response] eq_refl H) as (s' & HL & _).
  exists s'. exact HL.
Defined.

Lemma List_errors_witness :
  (exists s', List (NewInfluxDBDatastore sample_cfg unreachable_client)
              = Ret (inr (Wrap (Errorf "connection refused") "listing logs")) s')
  /\ exists s', List (NewInfluxDBDatastore sample_cfg broken_catalog_client)
                = Ret (inr (Wrap (Errorf "unexpected EOF") "fetching response")) s'.
Proof.
  split.
  - apply (proj1 (List_errors (NewInfluxDBDatastore sample_cfg unreachable_client))
                 "connection refused" eq_refl).
  - apply (proj2 (List_errors (NewInfluxDBDatastore sample_cfg broken_catalog_client))
                 [catalog_response] "unexpected EOF" eq_refl).
    simpl. apply Forall_cons; [right; eauto|].
    apply Forall_cons; [left; reflexivity|].
    apply Forall_cons; [right; eauto|]. apply Forall_nil.
Defined.

Lemma List_malformed_row_panics_witness :
  exists msg s',
    List (NewInfluxDBDatastore sample_cfg odd_catalog_client) = Panic msg s'.
Proof.
  apply (@List_malformed_row_panics
           (NewInfluxDBDatastore sample_cfg odd_catalog_client)
           [odd_catalog_response] eq_refl).
  right. left. intros [H|(n & tl & H)]; discriminate.
Defined.
